(** * Topology and permission expander (scripts/tools/topology.py)

    A shallow embedding of [format_tokens], [expand_role_users] and
    [build_nats_authz], and the properties of the identity and permission
    matrix they derive from a topology document.

    Conventions of the embedding.
    - A Python [str] is a [string]: the sequence of bytes of its UTF-8
      encoding.  The characters the program inspects (braces, the double
      quote, the newline) are ASCII, and byte-wise lexicographic order on
      UTF-8 is code-point order, so scanning, replacing and sorting agree
      with Python's.
    - The parsed document is typed: keys that the program indexes directly
      are record fields, keys that it reads with [.get] are [option] fields.
    - An exception is a value of [exn]; a computation that may raise has
      type [result A]. *)

From Stdlib Require Import ZArith Ascii.
From stdpp Require Import base option list gmap strings sorting.

Local Open Scope Z_scope.

(** ** Exceptions and the error monad *)

Inductive exn : Type :=
| KeyError (key : string)
| ValueError (msg : string)
| IndexError (index : Z)
| Unmodelled.

Inductive result (A : Type) : Type :=
| Ok (a : A)
| Raise (e : exn).

Arguments Ok {A} a.
Arguments Raise {A} e.

#[global] Instance result_ret : MRet result := fun A a => Ok a.

#[global] Instance result_bind : MBind result := fun A B f m =>
  match m with
  | Ok a => f a
  | Raise e => Raise e
  end.

#[global] Instance result_fmap : FMap result := fun A B f m =>
  match m with
  | Ok a => Ok (f a)
  | Raise e => Raise e
  end.

Definition is_Ok {A} (m : result A) : Prop := exists a, m = Ok a.

(** [d[key]]: indexing a key that [.get] may have found absent. *)
Definition getitem {A} (key : string) (o : option A) : result A :=
  match o with
  | Some v => Ok v
  | None => Raise (KeyError key)
  end.

(** A [for] loop over [xs] that threads the mutated local [s] through
    its body and stops at the first exception. *)
Fixpoint for_ {A S} (xs : list A) (body : A -> S -> result S) (s : S)
  : result S :=
  match xs with
  | [] => Ok s
  | x :: xs' => s' ← body x s; for_ xs' body s'
  end.

(** ** Characters *)

Definition dquote : ascii := "034"%char.
Definition backslash : ascii := "092"%char.
Definition newline : ascii := "010"%char.
Definition lbrace : ascii := "{"%char.
Definition rbrace : ascii := "}"%char.

(** ** [str.format] with keyword arguments only

    [template.format], called with the keyword arguments [kw], scans the template from the left.  Literal
    text is copied; a doubled brace stands for one brace; a replacement
    field is looked up as soon as it is read, so the first defect met
    from the left decides the exception.  The fragment modelled is the
    one the role templates are written in: fields that are a bare
    argument name.  A field that uses a conversion ([!]), a format
    specification ([:]), attribute access ([.]) or indexing ([[])
    yields [Unmodelled]: the embedding says nothing about it. *)

Abbreviation kwargs := (gmap string string).

(** PY_SSIZE_T_MAX on a 64-bit build. *)
Definition PY_SSIZE_T_MAX : Z := 2 ^ 63 - 1.

Definition digit_value (c : ascii) : option Z :=
  Z.of_nat <$> Ascii.is_nat c.

(** [get_integer] of CPython's formatter: [Some (Ok n)] for a decimal
    index, [Some (Raise _)] when it overflows, [None] when the name has
    a character that is not a digit. *)
Fixpoint get_integer (accumulator : Z) (s : string) : option (result Z) :=
  match s with
  | EmptyString => Some (Ok accumulator)
  | String c s' =>
      match digit_value c with
      | None => None
      | Some digitval =>
          if (PY_SSIZE_T_MAX - digitval) / 10 <? accumulator
          then Some (Raise (ValueError "Too many decimal digits in format string"))
          else get_integer (accumulator * 10 + digitval) s'
      end
  end.

(** The object a field names.  No positional argument is ever passed,
    so an empty (auto-numbered) or numeric name is out of range. *)
Definition get_field (kw : kwargs) (name : string) : result string :=
  match name with
  | EmptyString => Raise (IndexError 0)
  | _ =>
      match get_integer 0 name with
      | Some (Ok index) => Raise (IndexError index)
      | Some (Raise e) => Raise e
      | None => getitem name (kw !! name)
      end
  end.

Definition is_field_operator (c : ascii) : bool :=
  bool_decide (c = "!"%char) || bool_decide (c = ":"%char)
  || bool_decide (c = "."%char) || bool_decide (c = "["%char).

(** [field = None]: scanning literal text.  [field = Some name]:
    inside a replacement field whose name read so far is [name]. *)
Fixpoint format_scan (kw : kwargs) (field : option string) (s : string)
  : result string :=
  match field, s with
  | None, EmptyString => Ok EmptyString
  | None, String c s' =>
      if bool_decide (c = lbrace) then
        match s' with
        | EmptyString =>
            Raise (ValueError "Single '{' encountered in format string")
        | String c' s'' =>
            if bool_decide (c' = lbrace)
            then r ← format_scan kw None s''; Ok (String lbrace r)
            else format_scan kw (Some EmptyString) s'
        end
      else if bool_decide (c = rbrace) then
        match s' with
        | EmptyString =>
            Raise (ValueError "Single '}' encountered in format string")
        | String c' s'' =>
            if bool_decide (c' = rbrace)
            then r ← format_scan kw None s''; Ok (String rbrace r)
            else Raise (ValueError "Single '}' encountered in format string")
        end
      else r ← format_scan kw None s'; Ok (String c r)
  | Some name, EmptyString =>
      Raise (ValueError "expected '}' before end of string")
  | Some name, String c s' =>
      if bool_decide (c = rbrace) then
        v ← get_field kw name;
        r ← format_scan kw None s';
        Ok (v +:+ r)
      else if bool_decide (c = lbrace) then
        Raise (ValueError "unexpected '{' in field name")
      else if is_field_operator c then Raise Unmodelled
      else format_scan kw (Some (name +:+ String c EmptyString)) s'
  end.

Definition format_tokens (template : string) (kw : kwargs) : result string :=
  format_scan kw None template.

(** Keyword arguments as the call site lists them. *)
Definition keywords (l : list (string * string)) : kwargs := list_to_map l.

(** ** The parsed topology document *)

Record role_template : Type := {
  userTemplate : string;
  tpl_publish : list string;
  tpl_subscribe : list string
}.

Record topology : Type := {
  zones : list string;
  subzonesPerZone : list string;
  leavesPerAttachment : list string;
  centralId : string;
  zoneForCentralAttachedLeaves : string
}.

Record role_matrix : Type := {
  relayCentral : role_template;
  relayZone : role_template;
  relaySubzone : role_template;
  leafCentral : role_template;
  leafZone : role_template;
  leafSubzone : role_template
}.

Record js_client_internal : Type := {
  js_publishAllow : option (list string);
  js_subscribeAllow : option (list string)
}.

Record admin_principal : Type := {
  admin_username : option string;
  admin_password : option string;
  admin_publishAllow : option (list string);
  admin_subscribeAllow : option (list string)
}.

Record auth_config : Type := {
  enforcePermissions : option bool;
  passwordPrefix : option string;
  admin : option admin_principal;
  jsClientInternal : option js_client_internal
}.

Record config : Type := {
  cfg_topology : topology;
  cfg_roles : role_matrix;
  cfg_auth : option auth_config
}.

(** ** Principals *)

(** One dictionary of the list [expand_role_users] returns.  The keys
    [zone], [subzone] and [leafId] exist only for the roles that set
    them. *)
Record principal : Type := {
  username : string;
  role : string;
  zone : option string;
  subzone : option string;
  leafId : option string;
  publish : list string;
  subscribe : list string
}.

(** The dictionary literal of one [users.append]: the user name is
    formatted first, then the publish subjects, then the subscribe
    subjects, each list from the left.  [kw_user] are the keyword
    arguments of the user template, [kw_subject] those of the
    subject templates. *)
Definition instantiate (role_name : string) (tpl : role_template)
    (kw_user kw_subject : kwargs) (z sz leaf : option string)
  : result principal :=
  name ← format_tokens (userTemplate tpl) kw_user;
  pub ← mapM (fun s => format_tokens s kw_subject) (tpl_publish tpl);
  sub ← mapM (fun s => format_tokens s kw_subject) (tpl_subscribe tpl);
  Ok {| username := name; role := role_name;
        zone := z; subzone := sz; leafId := leaf;
        publish := pub; subscribe := sub |}.

Section expansion.
Variable cfg : config.

Let t := cfg_topology cfg.
Let roles := cfg_roles cfg.
Let central_id := centralId t.
Let zone_central := zoneForCentralAttachedLeaves t.

Definition central_relay : result principal :=
  instantiate "relayCentral" (relayCentral roles)
    (keywords [("centralId", central_id)])
    (keywords [("centralId", central_id);
               ("zoneForCentralAttachedLeaves", zone_central)])
    None None None.

Definition zone_relay (z : string) : result principal :=
  let kw := keywords [("centralId", central_id); ("zone", z)] in
  instantiate "relayZone" (relayZone roles) kw kw (Some z) None None.

Definition subzone_relay (z sz : string) : result principal :=
  let kw := keywords [("centralId", central_id); ("zone", z);
                      ("subzone", sz)] in
  instantiate "relaySubzone" (relaySubzone roles) kw kw
    (Some z) (Some sz) None.

Definition central_leaf (leaf : string) : result principal :=
  let kw := keywords [("centralId", central_id);
                      ("zoneForCentralAttachedLeaves", zone_central);
                      ("leafId", leaf)] in
  instantiate "leafCentral" (leafCentral roles) kw kw
    (Some zone_central) None (Some leaf).

Definition zone_leaf (z leaf : string) : result principal :=
  let kw := keywords [("centralId", central_id); ("zone", z);
                      ("leafId", leaf)] in
  instantiate "leafZone" (leafZone roles) kw kw (Some z) None (Some leaf).

Definition subzone_leaf (z sz leaf : string) : result principal :=
  let kw := keywords [("centralId", central_id); ("zone", z);
                      ("subzone", sz); ("leafId", leaf)] in
  instantiate "leafSubzone" (leafSubzone roles) kw kw
    (Some z) (Some sz) (Some leaf).

(** [users.append(d)] where evaluating [d] may raise. *)
Definition append (d : result principal) (users : list principal)
  : result (list principal) :=
  u ← d; Ok (users ++ [u]).

Definition expand_role_users : result (list principal) :=
  let users := [] in
  (* Central relay *)
  users ← append central_relay users;
  (* Zone relays *)
  users ← for_ (zones t) (fun z users =>
    append (zone_relay z) users) users;
  (* Subzone relays *)
  users ← for_ (zones t) (fun z users =>
    for_ (subzonesPerZone t) (fun sz users =>
      append (subzone_relay z sz) users) users) users;
  (* Leaf users: central-attached *)
  users ← for_ (leavesPerAttachment t) (fun leaf users =>
    append (central_leaf leaf) users) users;
  (* Leaf users: zone-attached *)
  users ← for_ (zones t) (fun z users =>
    for_ (leavesPerAttachment t) (fun leaf users =>
      append (zone_leaf z leaf) users) users) users;
  (* Leaf users: subzone-attached *)
  users ← for_ (zones t) (fun z users =>
    for_ (subzonesPerZone t) (fun sz users =>
      for_ (leavesPerAttachment t) (fun leaf users =>
        append (subzone_leaf z sz leaf) users) users) users) users;
  Ok users.
End expansion.

(** ** The authorization block *)

Record permissions_block : Type := {
  publish_allow : list string;
  subscribe_allow : list string
}.

(** One dictionary of the renderer's [users] list; the key
    [permissions] exists only in the entries built under enforcement. *)
Record user_entry : Type := {
  user : string;
  password : string;
  permissions : option permissions_block
}.

(** Truth value of [d.get(key)] for a string-valued key: absent and
    empty are both false. *)
Definition truthy (o : option string) : bool :=
  match o with
  | Some s => negb (bool_decide (s = EmptyString))
  | None => false
  end.

(** [sorted] on strings: any correct sort returns the same list, since
    equal strings are indistinguishable. *)
Definition sorted (l : list string) : list string := merge_sort String.le l.

(** [val.replace(old, new)] for a one-character [old]. *)
Fixpoint replace (old : ascii) (new : string) (val : string) : string :=
  match val with
  | EmptyString => EmptyString
  | String c val' =>
      if bool_decide (c = old) then new +:+ replace old new val'
      else String c (replace old new val')
  end.

Definition q (val : string) : string :=
  String dquote EmptyString
  +:+ replace dquote (String backslash (String dquote EmptyString)) val
  +:+ String dquote EmptyString.

(** [sep.join(l)] *)
Fixpoint join (sep : string) (l : list string) : string :=
  match l with
  | [] => EmptyString
  | [x] => x
  | x :: l' => x +:+ sep +:+ join sep l'
  end.

Definition enumerate {A} (l : list A) : list (nat * A) :=
  zip (seq 0 (length l)) l.

Definition admin_error : exn :=
  ValueError "auth.admin.username/password must be set in topology.yml".

Section rendering.
(** The order in which a Python [set] of strings is iterated.  It is
    not a function of the document: string hashes are salted per
    process.  It is a parameter of the embedding, constrained only by
    [set_iteration] below. *)
Variable set_iter : gset string -> list string.

Definition sorted_set (l : list string) : list string :=
  sorted (set_iter (list_to_set l)).

(** Lines 153-199: the entries, admin first.  The result carries
    [enforce] since the rendering loop reads it again. *)
Definition build_users (cfg : config) : result (bool * list user_entry) :=
  let auth_cfg :=
    default {| enforcePermissions := None; passwordPrefix := None;
               admin := None; jsClientInternal := None |} (cfg_auth cfg) in
  let enforce := default true (enforcePermissions auth_cfg) in
  let pwd_prefix := default "pwd_" (passwordPrefix auth_cfg) in
  let users := [] in
  (* Admin principal *)
  let admin :=
    default {| admin_username := None; admin_password := None;
               admin_publishAllow := None; admin_subscribeAllow := None |}
            (admin auth_cfg) in
  if negb (truthy (admin_username admin))
     || negb (truthy (admin_password admin))
  then Raise admin_error
  else if enforce then
    let js :=
      default {| js_publishAllow := None; js_subscribeAllow := None |}
              (jsClientInternal auth_cfg) in
    let js_pub := default [] (js_publishAllow js) in
    let js_sub := default [] (js_subscribeAllow js) in
    admin_user ← getitem "username" (admin_username admin);
    admin_pwd ← getitem "password" (admin_password admin);
    let users := users ++ [
      {| user := admin_user; password := admin_pwd;
         permissions := Some
           {| publish_allow := default [">"] (admin_publishAllow admin);
              subscribe_allow := default [">"] (admin_subscribeAllow admin) |}
      |} ] in
    expanded ← expand_role_users cfg;
    users ← for_ expanded (fun u users =>
      let username := username u in
      Ok (users ++ [
        {| user := username; password := pwd_prefix +:+ username;
           permissions := Some
             {| publish_allow := sorted_set (publish u ++ js_pub);
                subscribe_allow := sorted_set (subscribe u ++ js_sub) |}
        |} ])) users;
    Ok (enforce, users)
  else
    (* Authentication only (no subject permissions). *)
    admin_user ← getitem "username" (admin_username admin);
    admin_pwd ← getitem "password" (admin_password admin);
    let users := users ++ [
      {| user := admin_user; password := admin_pwd; permissions := None |}
    ] in
    expanded ← expand_role_users cfg;
    users ← for_ expanded (fun u users =>
      let username := username u in
      Ok (users ++ [
        {| user := username; password := pwd_prefix +:+ username;
           permissions := None |} ])) users;
    Ok (enforce, users).

(** Lines 209-224: the body of the rendering loop. *)
Definition render_user (enforce : bool) (len_users : nat)
    (idx : nat) (user_ : user_entry) (out : list string)
  : result (list string) :=
  let out := out ++ ["    {"] in
  let out := out ++ ["      user = " +:+ q (user user_)] in
  let out := out ++ ["      password = " +:+ q (password user_)] in
  out ← (if enforce then
           perms ← getitem "permissions" (permissions user_);
           let out := out ++ ["      permissions = {"] in
           let out := out ++ ["        publish = {"] in
           let out := out ++ ["          allow = ["
                              +:+ join ", " (q <$> publish_allow perms)
                              +:+ "]"] in
           let out := out ++ ["        }"] in
           let out := out ++ ["        subscribe = {"] in
           let out := out ++ ["          allow = ["
                              +:+ join ", " (q <$> subscribe_allow perms)
                              +:+ "]"] in
           let out := out ++ ["        }"] in
           let out := out ++ ["      }"] in
           Ok out
         else Ok out);
  Ok (out ++ ["    }" +:+ (if Z.of_nat idx <? Z.of_nat len_users - 1
                           then "," else EmptyString)]).

(** Lines 204-227: the list [out] of lines. *)
Definition render_lines (enforce : bool) (users : list user_entry)
  : result (list string) :=
  let out := [] in
  let out := out ++ ["authorization {"] in
  let out := out ++ ["  users = ["] in
  out ← for_ (enumerate users) (fun '(idx, user_) out =>
    render_user enforce (length users) idx user_ out) out;
  let out := out ++ ["  ]"] in
  let out := out ++ ["}"] in
  Ok out.

Definition build_nats_authz (cfg : config) : result string :=
  '(enforce, users) ← build_users cfg;
  out ← render_lines enforce users;
  Ok (join (String newline EmptyString) out +:+ String newline EmptyString).

(** The [nats-authz] command of [main]: the text printed on standard
    output and the exit status.  An exception that escapes [main]
    ends the process with status 1 before [print] is reached. *)
Definition main_nats_authz (cfg : config) : string * Z :=
  match build_nats_authz cfg with
  | Ok text => (text, 0)
  | Raise _ => (EmptyString, 1)
  end.
End rendering.

(** ** Attachment points

    The positions of the hierarchy at which a role is instantiated, and
    the order in which the specification enumerates them.  These
    definitions follow the specification; [expand_role_users] above
    follows the program. *)

Inductive site : Type :=
| CentralRelay
| ZoneRelay (z : string)
| SubzoneRelay (z sz : string)
| CentralLeaf (leaf : string)
| ZoneLeaf (z leaf : string)
| SubzoneLeaf (z sz leaf : string).

Definition sites (t : topology) : list site :=
  [CentralRelay]
  ++ (z ← zones t; [ZoneRelay z])
  ++ (z ← zones t; sz ← subzonesPerZone t; [SubzoneRelay z sz])
  ++ (leaf ← leavesPerAttachment t; [CentralLeaf leaf])
  ++ (z ← zones t; leaf ← leavesPerAttachment t; [ZoneLeaf z leaf])
  ++ (z ← zones t; sz ← subzonesPerZone t;
      leaf ← leavesPerAttachment t; [SubzoneLeaf z sz leaf]).

Definition principal_at (cfg : config) (s : site) : result principal :=
  match s with
  | CentralRelay => central_relay cfg
  | ZoneRelay z => zone_relay cfg z
  | SubzoneRelay z sz => subzone_relay cfg z sz
  | CentralLeaf leaf => central_leaf cfg leaf
  | ZoneLeaf z leaf => zone_leaf cfg z leaf
  | SubzoneLeaf z sz leaf => subzone_leaf cfg z sz leaf
  end.

(** Role and positional context of a principal. *)
Definition position : Type :=
  string * option string * option string * option string.

Definition position_of (u : principal) : position :=
  (role u, zone u, subzone u, leafId u).

Definition site_position (t : topology) (s : site) : position :=
  match s with
  | CentralRelay => ("relayCentral", None, None, None)
  | ZoneRelay z => ("relayZone", Some z, None, None)
  | SubzoneRelay z sz => ("relaySubzone", Some z, Some sz, None)
  | CentralLeaf leaf =>
      ("leafCentral", Some (zoneForCentralAttachedLeaves t), None, Some leaf)
  | ZoneLeaf z leaf => ("leafZone", Some z, None, Some leaf)
  | SubzoneLeaf z sz leaf => ("leafSubzone", Some z, Some sz, Some leaf)
  end.

(** The output order the specification fixes: the six role categories
    in turn, each iterated zone-major, then subzone, then leaf, in the
    literal order of the topology's sequences. *)
Definition category_order (t : topology) : list position :=
  [("relayCentral", None, None, None)]
  ++ (z ← zones t; [("relayZone", Some z, None, None)])
  ++ (z ← zones t; sz ← subzonesPerZone t;
      [("relaySubzone", Some z, Some sz, None)])
  ++ (leaf ← leavesPerAttachment t;
      [("leafCentral", Some (zoneForCentralAttachedLeaves t), None,
        Some leaf)])
  ++ (z ← zones t; leaf ← leavesPerAttachment t;
      [("leafZone", Some z, None, Some leaf)])
  ++ (z ← zones t; sz ← subzonesPerZone t; leaf ← leavesPerAttachment t;
      [("leafSubzone", Some z, Some sz, Some leaf)]).

(** ** The authorization document

    The output grammar as the specification gives it: an entry is a
    brace-delimited record with [user], [password] and, when it has
    one, a [permissions] record; entries are comma-separated except the
    last.  These definitions follow the specification; [render_lines]
    above follows the program. *)

Definition allow_line (subjects : list string) : string :=
  "          allow = [" +:+ join ", " (q <$> subjects) +:+ "]".

Definition permissions_lines (p : permissions_block) : list string :=
  [ "      permissions = {";
    "        publish = {";
    allow_line (publish_allow p);
    "        }";
    "        subscribe = {";
    allow_line (subscribe_allow p);
    "        }";
    "      }" ].

Definition separator (len_entries idx : nat) : string :=
  if bool_decide (S idx < len_entries)%nat then ","
  else EmptyString.

Definition entry_lines (len_entries : nat) (idx : nat) (e : user_entry)
  : list string :=
  [ "    {";
    "      user = " +:+ q (user e);
    "      password = " +:+ q (password e) ]
  ++ from_option permissions_lines [] (permissions e)
  ++ [ "    }" +:+ separator len_entries idx ].

Definition document_lines (entries : list user_entry) : list string :=
  [ "authorization {"; "  users = [" ]
  ++ ('(idx, e) ← enumerate entries; entry_lines (length entries) idx e)
  ++ [ "  ]"; "}" ].

Definition unlines (out : list string) : string :=
  join (String newline EmptyString) out +:+ String newline EmptyString.

(** A [set] may be iterated in any order, but it yields each of its
    elements once. *)
Definition set_iteration (iter : gset string -> list string) : Prop :=
  forall X, iter X ≡ₚ elements X.

(** [P] is the sorted, duplicate-free union of [A] and [B]. *)
Definition sorted_union (A B P : list string) : Prop :=
  Sorted String.le P /\ NoDup P /\ forall x, x ∈ P <-> x ∈ A \/ x ∈ B.

(** A credential that [.get] finds absent or empty. *)
Definition lacks (o : option string) : Prop :=
  o = None \/ o = Some EmptyString.

Definition admin_field (cfg : config)
    (field : admin_principal -> option string) : option string :=
  a ← (cfg_auth cfg ≫= admin); field a.

(** The internal-system subjects of the document. *)
Definition js_publish (auth : auth_config) : list string :=
  default [] (jsClientInternal auth ≫= js_publishAllow).

Definition js_subscribe (auth : auth_config) : list string :=
  default [] (jsClientInternal auth ≫= js_subscribeAllow).

Definition password_prefix (auth : auth_config) : string :=
  default "pwd_" (passwordPrefix auth).

(** An entry carries a [permissions] record exactly under enforcement. *)
Definition permissions_match (enforce : bool) (e : user_entry) : Prop :=
  if enforce then is_Some (permissions e) else permissions e = None.


(** ** Placeholders and the context of an attachment point *)

Definition is_name_char (c : ascii) : bool :=
  negb (bool_decide (c = lbrace) || bool_decide (c = rbrace)
        || is_field_operator c).

Fixpoint all_chars (p : ascii -> bool) (s : string) : bool :=
  match s with
  | EmptyString => true
  | String c s' => p c && all_chars p s'
  end.



Definition site_template (roles : role_matrix) (s : site) : role_template :=
  match s with
  | CentralRelay => relayCentral roles
  | ZoneRelay _ => relayZone roles
  | SubzoneRelay _ _ => relaySubzone roles
  | CentralLeaf _ => leafCentral roles
  | ZoneLeaf _ _ => leafZone roles
  | SubzoneLeaf _ _ _ => leafSubzone roles
  end.

(** The placeholders available to the subject patterns at an
    attachment point. *)
Definition subject_keywords (t : topology) (s : site) : kwargs :=
  match s with
  | CentralRelay =>
      keywords [("centralId", centralId t);
                ("zoneForCentralAttachedLeaves",
                 zoneForCentralAttachedLeaves t)]
  | ZoneRelay z => keywords [("centralId", centralId t); ("zone", z)]
  | SubzoneRelay z sz =>
      keywords [("centralId", centralId t); ("zone", z); ("subzone", sz)]
  | CentralLeaf leaf =>
      keywords [("centralId", centralId t);
                ("zoneForCentralAttachedLeaves",
                 zoneForCentralAttachedLeaves t);
                ("leafId", leaf)]
  | ZoneLeaf z leaf =>
      keywords [("centralId", centralId t); ("zone", z); ("leafId", leaf)]
  | SubzoneLeaf z sz leaf =>
      keywords [("centralId", centralId t); ("zone", z); ("subzone", sz);
                ("leafId", leaf)]
  end.

(** The placeholders available to the user-name pattern: the same,
    except that the central relay's user name sees [centralId] only. *)
Definition user_keywords (t : topology) (s : site) : kwargs :=
  match s with
  | CentralRelay => keywords [("centralId", centralId t)]
  | _ => subject_keywords t s
  end.

(** Every pattern instantiated at [s], with its context. *)
Definition format_calls (cfg : config) (s : site) : list (string * kwargs) :=
  let tpl := site_template (cfg_roles cfg) s in
  let t := cfg_topology cfg in
  (userTemplate tpl, user_keywords t s)
  :: ((fun pattern => (pattern, subject_keywords t s))
      <$> (tpl_publish tpl ++ tpl_subscribe tpl)).

(** ** Reading a string literal back *)

(** Modelled from the spec: the string-literal rule of the target
    configuration grammar.  The broker that reads the generated block
    is not part of the repository; the specification says that values
    are quoted with double quotes and that an embedded double quote is
    backslash-escaped.  So: a literal opens with a double quote and
    ends at the first double quote that is not escaped, which must be
    its last character; a backslash followed by a double quote stands
    for a double quote.  What a backslash followed by another character
    stands for is left to the table [escape] ([None]: not a literal). *)
Fixpoint read_body (escape : ascii -> option string) (s : string)
  : option string :=
  match s with
  | EmptyString => None
  | String c s' =>
      if bool_decide (c = dquote) then
        match s' with
        | EmptyString => Some EmptyString
        | String _ _ => None
        end
      else if bool_decide (c = backslash) then
        match s' with
        | EmptyString => None
        | String c' s'' =>
            if bool_decide (c' = dquote)
            then String dquote <$> read_body escape s''
            else v ← escape c'; r ← read_body escape s''; Some (v +:+ r)
        end
      else String c <$> read_body escape s'
  end.

Definition read_literal (escape : ascii -> option string) (lit : string)
  : option string :=
  match lit with
  | EmptyString => None
  | String c body =>
      if bool_decide (c = dquote) then read_body escape body else None
  end.

(** Every double quote of [s] comes right after a backslash. *)
Fixpoint quotes_follow_backslash (after_backslash : bool) (s : string)
  : bool :=
  match s with
  | EmptyString => true
  | String c s' =>
      (negb (bool_decide (c = dquote)) || after_backslash)
      && quotes_follow_backslash (bool_decide (c = backslash)) s'
  end.

Definition no_backslash (val : string) : bool :=
  all_chars (fun c => negb (bool_decide (c = backslash))) val.

(** The replacement text of [q]: a backslash and a double quote. *)
Definition escaped_dquote : string :=
  String backslash (String dquote EmptyString).

(** Text without braces. *)
Definition no_braces (s : string) : bool :=
  all_chars (fun c => negb (bool_decide (c = lbrace)
                           || bool_decide (c = rbrace))) s.

(** The principal [u] is what the role of the attachment point [s]
    resolves to there: its user name and its subjects are the formatted
    patterns of the role, pattern by pattern. *)
Definition resolves_to (cfg : config) (s : site) (u : principal) : Prop :=
  let t := cfg_topology cfg in
  let tpl := site_template (cfg_roles cfg) s in
  format_tokens (userTemplate tpl) (user_keywords t s) = Ok (username u)
  /\ Forall2 (fun pattern subject =>
                format_tokens pattern (subject_keywords t s) = Ok subject)
       (tpl_publish tpl) (publish u)
  /\ Forall2 (fun pattern subject =>
                format_tokens pattern (subject_keywords t s) = Ok subject)
       (tpl_subscribe tpl) (subscribe u).

(** The entries of the authorization document, as functions of the
    document's values. *)
Definition admin_entry (enforce : bool) (a : admin_principal)
    (u p : string) : user_entry :=
  {| user := u; password := p;
     permissions :=
       if enforce
       then Some {| publish_allow := default [">"] (admin_publishAllow a);
                    subscribe_allow := default [">"] (admin_subscribeAllow a) |}
       else None |}.

Definition principal_entry (iter : gset string -> list string)
    (enforce : bool) (auth : auth_config) (pr : principal) : user_entry :=
  {| user := username pr;
     password := password_prefix auth +:+ username pr;
     permissions :=
       if enforce
       then Some {| publish_allow :=
                      sorted_set iter (publish pr ++ js_publish auth);
                    subscribe_allow :=
                      sorted_set iter (subscribe pr ++ js_subscribe auth) |}
       else None |}.

(** The administrative credentials are both present and not empty. *)
Definition admin_credentials (cfg : config) (u p : string) : Prop :=
  admin_field cfg admin_username = Some u /\ u <> EmptyString
  /\ admin_field cfg admin_password = Some p /\ p <> EmptyString.

(** The document with [auth.enforcePermissions] set to [flag]
    ([None]: the key removed). *)
Definition with_enforce (flag : option bool) (cfg : config) : config :=
  {| cfg_topology := cfg_topology cfg;
     cfg_roles := cfg_roles cfg;
     cfg_auth :=
       (fun auth =>
          {| enforcePermissions := flag;
             passwordPrefix := passwordPrefix auth;
             admin := admin auth;
             jsClientInternal := jsClientInternal auth |})
       <$> cfg_auth cfg |}.

Definition credentials (e : user_entry) : string * string :=
  (user e, password e).

(** ** The raw document and path lookup *)

(** A parsed JSON value, as [json.loads] returns it.  [jget] looks
    inside objects only; it never inspects a number, a string or an
    array. *)
#[warnings="-register-all"]
Inductive json : Type :=
| JNull
| JBool (b : bool)
| JNumber (n : Z)
| JString (s : string)
| JArray (items : list json)
| JObject (members : gmap string json).

(** [s.split(sep)] for a one-character [sep]. *)
Fixpoint split (sep : ascii) (s : string) : list string :=
  match s with
  | EmptyString => [EmptyString]
  | String c s' =>
      if bool_decide (c = sep) then EmptyString :: split sep s'
      else match split sep s' with
           | part :: parts => String c part :: parts
           | [] => [String c EmptyString]
           end
  end.

Definition path_not_found (path part : string) : exn :=
  KeyError ("Path not found: " +:+ path +:+ " (stuck at " +:+ part +:+ ")").

Definition jget (obj : json) (path : string) : result json :=
  let cur := obj in
  cur ← for_ (split "."%char path) (fun part cur =>
    match cur with
    | JObject members =>
        match members !! part with
        | Some v => Ok v
        | None => Raise (path_not_found path part)
        end
    | _ => Raise (path_not_found path part)
    end) cur;
  Ok cur.

(** The body of the loop of [jget]. *)
Definition jget_step (path : string) (part : string) (cur : json)
  : result json :=
  match cur with
  | JObject members =>
      match members !! part with
      | Some v => Ok v
      | None => Raise (path_not_found path part)
      end
  | _ => Raise (path_not_found path part)
  end.

(** The member [part] of [cur], when [cur] is an object that has it. *)
Definition member (cur : json) (part : string) : option json :=
  match cur with
  | JObject members => members !! part
  | _ => None
  end.

(** Following the segments [parts] from [cur], member by member. *)
Fixpoint walk (cur : json) (parts : list string) : option json :=
  match parts with
  | [] => Some cur
  | part :: parts' => next ← member cur part; walk next parts'
  end.

Definition is_object (v : json) : bool :=
  match v with
  | JObject _ => true
  | _ => false
  end.

(** ** Sample documents *)

Definition sample_roles : role_matrix :=
  {| relayCentral :=
       {| userTemplate := "relay.{centralId}";
          tpl_publish := ["up.{centralId}.>"];
          tpl_subscribe := ["down.{zoneForCentralAttachedLeaves}.>"] |};
     relayZone :=
       {| userTemplate := "relay.{zone}";
          tpl_publish := ["up.{centralId}.{zone}"];
          tpl_subscribe := [] |};
     relaySubzone :=
       {| userTemplate := "relay.{zone}.{subzone}";
          tpl_publish := []; tpl_subscribe := [] |};
     leafCentral :=
       {| userTemplate := "leaf.{zoneForCentralAttachedLeaves}.{leafId}";
          tpl_publish := []; tpl_subscribe := [] |};
     leafZone :=
       {| userTemplate := "leaf.{zone}.{leafId}";
          tpl_publish := ["b.{zone}"; "a"; "b.{zone}"];
          tpl_subscribe := ["x.{leafId}"] |};
     leafSubzone :=
       {| userTemplate := "leaf.{zone}.{subzone}.{leafId}";
          tpl_publish := []; tpl_subscribe := [] |} |}.

Definition sample_topology : topology :=
  {| zones := ["z1"; "z2"]; subzonesPerZone := ["sz1"];
     leavesPerAttachment := ["leaf1"]; centralId := "C1";
     zoneForCentralAttachedLeaves := "hq" |}.

Definition sample_auth (enforce : bool) : auth_config :=
  {| enforcePermissions := Some enforce;
     passwordPrefix := None;
     admin := Some {| admin_username := Some "root";
                      admin_password := Some "s3";
                      admin_publishAllow := None;
                      admin_subscribeAllow := None |};
     jsClientInternal :=
       Some {| js_publishAllow := Some ["$JS.API.INFO"; "a"];
               js_subscribeAllow := Some ["_INBOX.>"] |} |}.

Definition sample_cfg (enforce : bool) : config :=
  {| cfg_topology := sample_topology; cfg_roles := sample_roles;
     cfg_auth := Some (sample_auth enforce) |}.

(** The same document with the admin block lacking [password]. *)
Definition sample_cfg_no_password (enforce : bool) : config :=
  {| cfg_topology := sample_topology; cfg_roles := sample_roles;
     cfg_auth :=
       Some {| enforcePermissions := Some enforce;
               passwordPrefix := None;
               admin := Some {| admin_username := Some "root";
                                admin_password := None;
                                admin_publishAllow := None;
                                admin_subscribeAllow := None |};
               jsClientInternal := None |} |}.

(** Two role matrices that differ only in the central relay's user
    pattern; both patterns refer to [zone], which the central relay's
    user name does not see. *)
Definition roles_with_central_user (pattern : string) : role_matrix :=
  {| relayCentral :=
       {| userTemplate := pattern;
          tpl_publish := tpl_publish (relayCentral sample_roles);
          tpl_subscribe := tpl_subscribe (relayCentral sample_roles) |};
     relayZone := relayZone sample_roles;
     relaySubzone := relaySubzone sample_roles;
     leafCentral := leafCentral sample_roles;
     leafZone := leafZone sample_roles;
     leafSubzone := leafSubzone sample_roles |}.

Definition cfg_with_central_user (pattern : string) : config :=
  {| cfg_topology := sample_topology;
     cfg_roles := roles_with_central_user pattern;
     cfg_auth := Some (sample_auth true) |}.

(** A subject with two embedded double quotes. *)
Definition sample_quoted : string :=
  "say." +:+ String dquote "hi" +:+ String dquote ".>".

(** A document without zones whose zone relay has the user pattern
    [pattern]. *)
Definition cfg_without_zones (pattern : string) : config :=
  {| cfg_topology :=
       {| zones := []; subzonesPerZone := ["sz1"];
          leavesPerAttachment := ["leaf1"]; centralId := "C1";
          zoneForCentralAttachedLeaves := "hq" |};
     cfg_roles :=
       {| relayCentral := relayCentral sample_roles;
          relayZone :=
            {| userTemplate := pattern;
               tpl_publish := []; tpl_subscribe := [] |};
          relaySubzone := relaySubzone sample_roles;
          leafCentral := leafCentral sample_roles;
          leafZone := leafZone sample_roles;
          leafSubzone := leafSubzone sample_roles |};
     cfg_auth := Some (sample_auth true) |}.

(** The sample document with a zone relay user pattern that has no
    placeholder. *)
Definition cfg_with_zone_user (pattern : string) : config :=
  {| cfg_topology := sample_topology;
     cfg_roles :=
       {| relayCentral := relayCentral sample_roles;
          relayZone :=
            {| userTemplate := pattern;
               tpl_publish := []; tpl_subscribe := [] |};
          relaySubzone := relaySubzone sample_roles;
          leafCentral := leafCentral sample_roles;
          leafZone := leafZone sample_roles;
          leafSubzone := leafSubzone sample_roles |};
     cfg_auth := Some (sample_auth true) |}.

(** The sample document with allow-lists configured for the admin. *)
Definition cfg_with_admin_allow (pub sub : list string) : config :=
  {| cfg_topology := sample_topology; cfg_roles := sample_roles;
     cfg_auth :=
       Some {| enforcePermissions := None;
               passwordPrefix := Some "pw-";
               admin := Some {| admin_username := Some "root";
                                admin_password := Some "s3";
                                admin_publishAllow := Some pub;
                                admin_subscribeAllow := Some sub |};
               jsClientInternal := None |} |}.

(** A raw document: a topology with a central id and a list of zones. *)
Definition sample_json : json :=
  JObject {[ "topology" :=
    JObject (<[ "centralId" := JString "C1" ]>
             {[ "zones" := JArray [JString "z1"; JString "z2"] ]}) ]}.

(** * Properties *)

(** ** The error monad and loops *)

Lemma bind_Ok {A B} (m : result A) (f : A -> result B) b :
  m ≫= f = Ok b -> exists a, m = Ok a /\ f a = Ok b.
Proof. destruct m as [a|e]; simpl; [eauto | discriminate]. Qed.

Lemma bind_ret_r {A} (m : result A) : (a ← m; Ok a) = m.
Proof. by destruct m. Qed.

Lemma mapM_result_app {A B} (f : A -> result B) l1 l2 :
  mapM f (l1 ++ l2) = (k1 ← mapM f l1; k2 ← mapM f l2; Ok (k1 ++ k2)).
Proof.
  induction l1 as [|x l1 IH]; simpl.
  - by rewrite bind_ret_r.
  - destruct (f x) as [y|e]; simpl; [|done].
    rewrite IH. destruct (mapM f l1); simpl; [|done].
    by destruct (mapM f l2).
Qed.

Lemma mapM_result_Forall2 {A B} (f : A -> result B) l k :
  mapM f l = Ok k <-> Forall2 (fun x y => f x = Ok y) l k.
Proof.
  revert k. induction l as [|x l IH]; intros k; simpl.
  - split; [intros [= <-]; constructor | by inversion 1].
  - split.
    + intros (y & Hy & H)%bind_Ok. apply bind_Ok in H as (k' & Hk' & [= <-]).
      constructor; [done | by apply IH].
    + inversion 1 as [|? y ? k' Hy Hk']; subst. rewrite Hy. simpl.
      apply IH in Hk'. by rewrite Hk'.
Qed.

Lemma mapM_result_length {A B} (f : A -> result B) l k :
  mapM f l = Ok k -> length k = length l.
Proof. intros H%mapM_result_Forall2. symmetry. by eapply Forall2_length. Qed.

Lemma mapM_result_total {A B} (f : A -> result B) l :
  Forall (fun x => is_Ok (f x)) l -> is_Ok (mapM f l).
Proof.
  induction 1 as [|x l [y Hy] _ [k Hk]]; simpl; [by exists []|].
  rewrite Hy. simpl. rewrite Hk. by exists (y :: k).
Qed.

(** A loop whose body appends what [f] yields at the points [k x]
    collects [f] over all the points, in order. *)
Lemma for_collect {A B C} (f : B -> result C) (k : A -> list B)
    (body : A -> list C -> result (list C)) xs :
  (forall x s, body x s = (ys ← mapM f (k x); Ok (s ++ ys))) ->
  forall s, for_ xs body s = (ys ← mapM f (xs ≫= k); Ok (s ++ ys)).
Proof.
  intros Hbody. induction xs as [|x xs IH]; intros s.
  - simpl. by rewrite app_nil_r.
  - change ((x :: xs) ≫= k) with (k x ++ (xs ≫= k)).
    change (for_ (x :: xs) body s) with (s' ← body x s; for_ xs body s').
    rewrite Hbody, mapM_result_app.
    set (rest := xs ≫= k) in *.
    destruct (mapM f (k x)) as [ys|e]; simpl; [|done].
    rewrite IH. destruct (mapM f rest); simpl; [|done].
    by rewrite app_assoc.
Qed.

Lemma append_collect cfg (s : site) (users : list principal) :
  append (principal_at cfg s) users
  = (ys ← mapM (principal_at cfg) [s]; Ok (users ++ ys)).
Proof. unfold append. simpl. by destruct (principal_at cfg s). Qed.

Lemma collect_then {A B} (m : result (list A)) (s : list A)
    (k : list A -> result B) :
  (s' ← (ys ← m; Ok (s ++ ys)); k s') = (ys ← m; k (s ++ ys)).
Proof. by destruct m. Qed.

Lemma bind_Ok_l {A B} (a : A) (f : A -> result B) : Ok a ≫= f = f a.
Proof. reflexivity. Qed.

Lemma bind_Raise_l {A B} e (f : A -> result B) : Raise e ≫= f = Raise e.
Proof. reflexivity. Qed.

Ltac one_site H :=
  first [ exact (H (ZoneRelay _) _) | exact (H (SubzoneRelay _ _) _)
        | exact (H (CentralLeaf _) _) | exact (H (ZoneLeaf _ _) _)
        | exact (H (SubzoneLeaf _ _ _) _) ].

(** The loops of [expand_role_users] instantiate the attachment
    points of [sites], in that order. *)
Lemma expand_role_users_sites cfg :
  expand_role_users cfg = mapM (principal_at cfg) (sites (cfg_topology cfg)).
Proof.
  unfold expand_role_users, sites.
  set (f := principal_at cfg). set (t := cfg_topology cfg).
  assert (Hone : forall s users,
    append (f s) users = (ys ← mapM f [s]; Ok (users ++ ys)))
    by apply append_collect.
  rewrite !mapM_result_app.
  rewrite (Hone CentralRelay), collect_then.
  destruct (mapM f [CentralRelay]) as [ys1|]; [rewrite !bind_Ok_l|done].
  rewrite (for_collect f (fun z => [ZoneRelay z])), collect_then
    by (intros; one_site Hone).
  destruct (mapM f _) as [ys2|]; [rewrite !bind_Ok_l|done].
  rewrite (for_collect f
    (fun z => sz ← subzonesPerZone t; [SubzoneRelay z sz])), collect_then
    by (intros; apply (for_collect f); intros; one_site Hone).
  destruct (mapM f _) as [ys3|]; [rewrite !bind_Ok_l|done].
  rewrite (for_collect f (fun leaf => [CentralLeaf leaf])), collect_then
    by (intros; one_site Hone).
  destruct (mapM f _) as [ys4|]; [rewrite !bind_Ok_l|done].
  rewrite (for_collect f
    (fun z => leaf ← leavesPerAttachment t; [ZoneLeaf z leaf])), collect_then
    by (intros; apply (for_collect f); intros; one_site Hone).
  destruct (mapM f _) as [ys5|]; [rewrite !bind_Ok_l|done].
  rewrite (for_collect f
    (fun z => sz ← subzonesPerZone t; leaf ← leavesPerAttachment t;
              [SubzoneLeaf z sz leaf]))
    by (intros; apply (for_collect f); intros; apply (for_collect f);
        intros; one_site Hone).
  destruct (mapM f _) as [ys6|]; [rewrite !bind_Ok_l|done].
  by rewrite <- !app_assoc.
Qed.

(** ** Cardinality and order of the expansion *)

Lemma length_bind_const {A B} (k : A -> list B) n l :
  (forall x, length (k x) = n) -> length (l ≫= k) = (length l * n)%nat.
Proof.
  intros Hk. induction l as [|x l IH]; [done|].
  rewrite bind_cons, length_app, Hk, IH. simpl. lia.
Qed.

Lemma fmap_list_bind {A B C} (f : B -> C) (k : A -> list B) l :
  f <$> (l ≫= k) = l ≫= (fun x => f <$> k x).
Proof.
  induction l as [|x l IH]; [done|].
  by rewrite !bind_cons, fmap_app, IH.
Qed.

Lemma length_sites t :
  length (sites t)
  = (1 + length (zones t)
     + length (zones t) * length (subzonesPerZone t)
     + length (leavesPerAttachment t)
     + length (zones t) * length (leavesPerAttachment t)
     + length (zones t) * length (subzonesPerZone t)
       * length (leavesPerAttachment t))%nat.
Proof.
  unfold sites. rewrite !length_app.
  rewrite (length_bind_const (fun z => [ZoneRelay z]) 1) by done.
  rewrite (length_bind_const _ (length (subzonesPerZone t)) (zones t))
    by (intros; rewrite (length_bind_const _ 1) by done; lia).
  rewrite (length_bind_const (fun leaf => [CentralLeaf leaf]) 1) by done.
  rewrite (length_bind_const
    (fun z => leaf ← leavesPerAttachment t; [ZoneLeaf z leaf])
    (length (leavesPerAttachment t))) 
    by (intros; rewrite (length_bind_const _ 1) by done; lia).
  rewrite (length_bind_const _
    (length (subzonesPerZone t) * length (leavesPerAttachment t)) (zones t)).
  - simpl. lia.
  - intros z.
    rewrite (length_bind_const _ (length (leavesPerAttachment t))); [done|].
    intros sz. rewrite (length_bind_const _ 1) by done. lia.
Qed.

Lemma site_position_order t : site_position t <$> sites t = category_order t.
Proof.
  unfold sites, category_order.
  rewrite !fmap_app. repeat f_equal; rewrite fmap_list_bind;
    try reflexivity; apply list_bind_ext; try done; intros z;
    rewrite fmap_list_bind; try reflexivity;
    apply list_bind_ext; try done; intros sz;
    rewrite fmap_list_bind; reflexivity.
Qed.

Lemma instantiate_position role_name tpl kw_user kw_subject z sz leaf u :
  instantiate role_name tpl kw_user kw_subject z sz leaf = Ok u ->
  position_of u = (role_name, z, sz, leaf).
Proof.
  unfold instantiate. intros (name & _ & H)%bind_Ok.
  apply bind_Ok in H as (pub & _ & H).
  apply bind_Ok in H as (sub & _ & [= <-]). reflexivity.
Qed.

Lemma principal_at_position cfg s u :
  principal_at cfg s = Ok u ->
  position_of u = site_position (cfg_topology cfg) s.
Proof. destruct s; apply instantiate_position. Qed.

(** C2. Cardinality: for a topology with Z zones, S subzones per zone
    and L leaves per attachment point, the list [expand_role_users]
    returns has exactly 1 + Z + Z*S + L + Z*L + Z*S*L principals. *)
Theorem expand_role_users_cardinality cfg users :
  expand_role_users cfg = Ok users ->
  let t := cfg_topology cfg in
  let nZ := length (zones t) in
  let nS := length (subzonesPerZone t) in
  let nL := length (leavesPerAttachment t) in
  length users = (1 + nZ + nZ * nS + nL + nZ * nL + nZ * nS * nL)%nat.
Proof.
  rewrite expand_role_users_sites. intros H%mapM_result_length.
  simpl. by rewrite H, length_sites.
Qed.

Lemma expand_role_users_cardinality_witness :
  exists users,
    expand_role_users (sample_cfg true) = Ok users
    /\ length users = 10%nat.
Proof.
  eexists. split; [vm_compute; reflexivity|].
  apply (expand_role_users_cardinality (sample_cfg true)).
  vm_compute. reflexivity.
Defined.

(** C3. Order: the list [expand_role_users] returns is ordered by role
    category (central relay, zone relays, subzone relays,
    central-attached leaves, zone-attached leaves, subzone-attached
    leaves), each category zone-major, subzone-second, leaf-minor, in
    the literal order of the topology's sequences. *)
Theorem expand_role_users_order cfg users :
  expand_role_users cfg = Ok users ->
  position_of <$> users = category_order (cfg_topology cfg).
Proof.
  rewrite expand_role_users_sites. intros H%mapM_result_Forall2.
  rewrite <- site_position_order.
  induction H as [|s u l k Hu _ IH]; [done|].
  rewrite !fmap_cons, IH. f_equal. by apply principal_at_position.
Qed.

Lemma expand_role_users_order_witness :
  exists users,
    expand_role_users (sample_cfg true) = Ok users
    /\ position_of <$> users =
       [("relayCentral", None, None, None);
        ("relayZone", Some "z1", None, None);
        ("relayZone", Some "z2", None, None);
        ("relaySubzone", Some "z1", Some "sz1", None);
        ("relaySubzone", Some "z2", Some "sz1", None);
        ("leafCentral", Some "hq", None, Some "leaf1");
        ("leafZone", Some "z1", None, Some "leaf1");
        ("leafZone", Some "z2", None, Some "leaf1");
        ("leafSubzone", Some "z1", Some "sz1", Some "leaf1");
        ("leafSubzone", Some "z2", Some "sz1", Some "leaf1")].
Proof.
  eexists. split; [vm_compute; reflexivity|].
  apply (expand_role_users_order (sample_cfg true)).
  vm_compute. reflexivity.
Defined.

(** ** The entries of the authorization block *)

Lemma for_append_pure {A B} (g : A -> B) xs (s : list B) :
  for_ xs (fun x s => Ok (s ++ [g x])) s = Ok (s ++ (g <$> xs)).
Proof.
  revert s. induction xs as [|x xs IH]; intros s; simpl.
  - by rewrite app_nil_r.
  - rewrite IH. by rewrite <- app_assoc.
Qed.

Lemma truthy_Some o : truthy o = true <-> exists s, o = Some s /\ s <> EmptyString.
Proof.
  destruct o as [s|]; simpl.
  - rewrite negb_true_iff, bool_decide_eq_false.
    split; [eauto | by intros (? & [= <-] & ?)].
  - split; [done | by intros (? & ? & ?)].
Qed.

Lemma truthy_lacks o : truthy o = false <-> lacks o.
Proof.
  unfold lacks. destruct o as [s|]; simpl.
  - rewrite negb_false_iff, bool_decide_eq_true.
    split; [intros ->; by right | by intros [|[= ->]]].
  - split; [by left | done].
Qed.

(** What [build_users] returns when it returns: the admin entry, then
    one entry per expanded principal, in order. *)
Lemma build_users_Ok iter cfg enforce entries :
  build_users iter cfg = Ok (enforce, entries) ->
  exists auth a u p principals,
    cfg_auth cfg = Some auth /\ admin auth = Some a
    /\ admin_username a = Some u /\ u <> EmptyString
    /\ admin_password a = Some p /\ p <> EmptyString
    /\ enforce = default true (enforcePermissions auth)
    /\ expand_role_users cfg = Ok principals
    /\ entries =
       {| user := u; password := p;
          permissions :=
            if enforce
            then Some {| publish_allow := default [">"] (admin_publishAllow a);
                         subscribe_allow := default [">"] (admin_subscribeAllow a) |}
            else None |}
       :: ((fun pr =>
              {| user := username pr;
                 password := password_prefix auth +:+ username pr;
                 permissions :=
                   if enforce
                   then Some {| publish_allow :=
                                  sorted_set iter (publish pr ++ js_publish auth);
                                subscribe_allow :=
                                  sorted_set iter (subscribe pr ++ js_subscribe auth) |}
                   else None |}) <$> principals).
Proof.
  unfold build_users.
  destruct (cfg_auth cfg) as [auth|]; simpl; [|discriminate].
  destruct (admin auth) as [a|] eqn:Ha; simpl; [|discriminate].
  destruct (truthy (admin_username a)) eqn:Hu; simpl; [|discriminate].
  destruct (truthy (admin_password a)) eqn:Hp; simpl; [|discriminate].
  apply truthy_Some in Hu as (u & Hu & Hune).
  apply truthy_Some in Hp as (p & Hp & Hpne).
  rewrite Hu, Hp. simpl.
  destruct (default true (enforcePermissions auth)) eqn:He;
    destruct (expand_role_users cfg) as [principals|]; simpl;
    try discriminate; rewrite for_append_pure; intros [= <- <-];
    exists auth, a, u, p, principals; repeat split; try done.
  unfold js_publish, js_subscribe, password_prefix.
  by destruct (jsClientInternal auth).
Qed.

Lemma build_users_admin_check iter cfg :
  lacks (admin_field cfg admin_username)
  \/ lacks (admin_field cfg admin_password) ->
  build_users iter cfg = Raise admin_error.
Proof.
  unfold admin_field, build_users.
  destruct (cfg_auth cfg) as [auth|]; simpl; [|done].
  destruct (admin auth) as [a|]; simpl; [|done].
  intros [H%truthy_lacks | H%truthy_lacks]; rewrite H; simpl; [done|].
  by rewrite orb_true_r.
Qed.

(** ** Rendering *)

Lemma for_collect_pure {A C} (k : A -> list C) (P : A -> Prop)
    (body : A -> list C -> result (list C)) xs :
  (forall x s, P x -> body x s = Ok (s ++ k x)) ->
  Forall P xs ->
  forall s, for_ xs body s = Ok (s ++ (xs ≫= k)).
Proof.
  intros Hbody. induction 1 as [|x xs Hx _ IH]; intros s.
  - simpl. by rewrite app_nil_r.
  - change ((x :: xs) ≫= k) with (k x ++ (xs ≫= k)).
    change (for_ (x :: xs) body s) with (s' ← body x s; for_ xs body s').
    rewrite Hbody by done. rewrite bind_Ok_l, IH. by rewrite app_assoc.
Qed.

Lemma separator_comma len_users idx :
  (if Z.of_nat idx <? Z.of_nat len_users - 1 then "," else EmptyString)
  = separator len_users idx.
Proof.
  unfold separator. case_bool_decide; destruct (Z.ltb_spec
    (Z.of_nat idx) (Z.of_nat len_users - 1)); (done || lia).
Qed.

Lemma render_user_lines enforce len_users idx e out :
  permissions_match enforce e ->
  render_user enforce len_users idx e out
  = Ok (out ++ entry_lines len_users idx e).
Proof.
  unfold permissions_match, render_user, entry_lines.
  rewrite separator_comma.
  destruct enforce; [intros [perms ->] | intros ->]; simpl;
    by rewrite <- !app_assoc.
Qed.

Lemma Forall_enumerate {A} (P : A -> Prop) (l : list A) :
  Forall P l -> Forall (fun p => P p.2) (enumerate l).
Proof.
  intros H. unfold enumerate. generalize 0%nat.
  induction H as [|x l Hx _ IH]; intros start; simpl; constructor; eauto.
Qed.

Lemma render_lines_document enforce entries :
  Forall (permissions_match enforce) entries ->
  render_lines enforce entries = Ok (document_lines entries).
Proof.
  intros H%Forall_enumerate. unfold render_lines, document_lines.
  rewrite (for_collect_pure
    (fun p => entry_lines (length entries) p.1 p.2)
    (fun p => permissions_match enforce p.2)); [| |done].
  - rewrite bind_Ok_l. f_equal. rewrite <- !app_assoc. simpl.
    do 2 f_equal. f_equal. apply list_bind_ext; [|done]. by intros [idx e].
  - intros [idx e] s He. by apply render_user_lines.
Qed.

(** The text [build_nats_authz] returns is the document of the entries
    [build_users] builds. *)
Lemma build_nats_authz_Ok iter cfg text :
  build_nats_authz iter cfg = Ok text ->
  exists enforce entries,
    build_users iter cfg = Ok (enforce, entries)
    /\ text = unlines (document_lines entries).
Proof.
  unfold build_nats_authz. intros ([enforce entries] & Hb & H)%bind_Ok.
  exists enforce, entries. split; [done|].
  destruct (build_users_Ok _ _ _ _ Hb)
    as (auth & a & u & p & principals & _ & _ & _ & _ & _ & _ & _ & _ & ->).
  rewrite render_lines_document in H.
  - by injection H as <-.
  - constructor; [by destruct enforce; simpl; eauto|].
    apply Forall_fmap, Forall_true. intros pr.
    by destruct enforce; simpl; eauto.
Qed.

(** C4. If the administrative principal lacks a non-empty username or
    a non-empty password, [build_nats_authz] raises the configuration
    error and returns no text: the command prints nothing and exits
    with a non-zero status.  The error is the same whatever the role
    templates are: the check precedes the expansion. *)
Theorem admin_credentials_required iter cfg :
  lacks (admin_field cfg admin_username)
  \/ lacks (admin_field cfg admin_password) ->
  build_nats_authz iter cfg = Raise admin_error
  /\ main_nats_authz iter cfg = (EmptyString, 1).
Proof.
  intros H%(build_users_admin_check iter).
  unfold main_nats_authz, build_nats_authz. by rewrite H.
Qed.

Lemma admin_credentials_required_witness :
  build_nats_authz elements (sample_cfg_no_password true) = Raise admin_error
  /\ main_nats_authz elements (sample_cfg_no_password true) = (EmptyString, 1).
Proof.
  apply (admin_credentials_required elements (sample_cfg_no_password true)).
  right. left. reflexivity.
Defined.

(** C10. The admin-credential check is unconditional: in
    authentication-only mode ([enforcePermissions] false) a missing or
    empty administrative username or password raises the same error. *)
Theorem admin_check_precedes_enforcement iter cfg auth :
  cfg_auth cfg = Some auth ->
  enforcePermissions auth = Some false ->
  lacks (admin_field cfg admin_username)
  \/ lacks (admin_field cfg admin_password) ->
  build_nats_authz iter cfg = Raise admin_error.
Proof.
  intros _ _ H%(build_users_admin_check iter).
  unfold build_nats_authz. by rewrite H.
Qed.

Lemma admin_check_precedes_enforcement_witness :
  build_nats_authz elements (sample_cfg_no_password false) = Raise admin_error.
Proof.
  eapply (admin_check_precedes_enforcement elements
            (sample_cfg_no_password false)).
  - reflexivity.
  - reflexivity.
  - right. left. reflexivity.
Defined.

(** ** Sorted sets *)

Section sorted_sets.
Variable iter : gset string -> list string.
Hypothesis iter_ok : set_iteration iter.

Lemma sorted_set_Permutation l :
  sorted_set iter l ≡ₚ elements (list_to_set (C := gset string) l).
Proof.
  unfold sorted_set, sorted.
  etrans; [apply merge_sort_Permutation | apply iter_ok].
Qed.

Lemma sorted_set_Sorted l : Sorted String.le (sorted_set iter l).
Proof. apply (Sorted_merge_sort String.le). Qed.

Lemma sorted_set_NoDup l : NoDup (sorted_set iter l).
Proof. rewrite sorted_set_Permutation. apply NoDup_elements. Qed.

Lemma elem_of_sorted_set l x : x ∈ sorted_set iter l <-> x ∈ l.
Proof.
  by rewrite sorted_set_Permutation, elem_of_elements, elem_of_list_to_set.
Qed.

Lemma sorted_set_union A B : sorted_union A B (sorted_set iter (A ++ B)).
Proof.
  split; [apply sorted_set_Sorted|]. split; [apply sorted_set_NoDup|].
  intros x. by rewrite elem_of_sorted_set, elem_of_app.
Qed.
End sorted_sets.




(** ** The claims on the rendered block *)

(** C1. Allow-list closure: in enforced mode, for every non-admin
    principal, the publish allow-list rendered in its entry is the
    lexicographically sorted, duplicate-free union of the principal's
    role-derived publish subjects and the internal publish subjects of
    [auth.jsClientInternal.publishAllow]; likewise for subscribe. *)
Theorem allow_list_closure iter cfg auth text :
  set_iteration iter ->
  cfg_auth cfg = Some auth ->
  default true (enforcePermissions auth) = true ->
  build_nats_authz iter cfg = Ok text ->
  exists admin_entry principals entries,
    text = unlines (document_lines (admin_entry :: entries))
    /\ expand_role_users cfg = Ok principals
    /\ Forall2 (fun pr e =>
         user e = username pr
         /\ exists perms,
              permissions e = Some perms
              /\ sorted_union (publish pr) (js_publish auth)
                   (publish_allow perms)
              /\ sorted_union (subscribe pr) (js_subscribe auth)
                   (subscribe_allow perms))
         principals entries.
Proof.
  intros Hiter Hauth Henf (enforce & ents & Hb & ->)%build_nats_authz_Ok.
  apply build_users_Ok in Hb
    as (auth' & a & u & p & principals & Hauth' & _ & _ & _ & _ & _
        & -> & Hexp & ->).
  assert (auth' = auth) as -> by congruence. rewrite Henf.
  eexists _, principals, _. split; [reflexivity|]. split; [done|].
  apply Forall2_fmap_r, Forall_Forall2_diag, Forall_true. intros pr.
  split; [done|]. eexists. split; [reflexivity|]. simpl.
  split; by apply sorted_set_union.
Qed.

Lemma allow_list_closure_witness :
  exists text admin_entry principals entries,
    build_nats_authz elements (sample_cfg true) = Ok text
    /\ text = unlines (document_lines (admin_entry :: entries))
    /\ expand_role_users (sample_cfg true) = Ok principals
    /\ Forall2 (fun pr e =>
         user e = username pr
         /\ exists perms,
              permissions e = Some perms
              /\ sorted_union (publish pr) (js_publish (sample_auth true))
                   (publish_allow perms)
              /\ sorted_union (subscribe pr) (js_subscribe (sample_auth true))
                   (subscribe_allow perms))
         principals entries.
Proof.
  eexists.
  destruct (allow_list_closure elements (sample_cfg true) (sample_auth true)
              (default EmptyString
                 (match build_nats_authz elements (sample_cfg true) with
                  | Ok text => Some text | Raise _ => None end)))
    as (admin_entry & principals & entries & H).
  - intros X. reflexivity.
  - reflexivity.
  - reflexivity.
  - vm_compute. reflexivity.
  - exists admin_entry, principals, entries. split; [|exact H].
    vm_compute. reflexivity.
Defined.

Lemma build_users_enforce iter cfg auth enforce entries :
  cfg_auth cfg = Some auth ->
  build_users iter cfg = Ok (enforce, entries) ->
  enforce = default true (enforcePermissions auth).
Proof.
  intros Hauth (auth' & ? & ? & ? & ? & Hauth' & _ & _ & _ & _ & _ & -> & _)
    %build_users_Ok.
  congruence.
Qed.

Lemma build_users_auth_only iter cfg entries :
  build_users iter cfg = Ok (false, entries) ->
  Forall (fun e => permissions e = None) entries.
Proof.
  intros (? & ? & ? & ? & ? & _ & _ & _ & _ & _ & _ & _ & _ & ->)
    %build_users_Ok.
  constructor; [done|]. by apply Forall_fmap, Forall_true.
Qed.

(** C5. Mode toggle: with enforcement off, every entry of the text,
    the administrative one included, consists of exactly a [user] and
    a [password] field, and no line opens a [permissions] block. *)
Theorem auth_only_has_no_permissions iter cfg auth text :
  cfg_auth cfg = Some auth ->
  enforcePermissions auth = Some false ->
  build_nats_authz iter cfg = Ok text ->
  exists entries out,
    build_users iter cfg = Ok (false, entries)
    /\ text = unlines out
    /\ out =
       [ "authorization {"; "  users = [" ]
       ++ ('(idx, e) ← enumerate entries;
           [ "    {";
             "      user = " +:+ q (user e);
             "      password = " +:+ q (password e);
             "    }" +:+ separator (length entries) idx ])
       ++ [ "  ]"; "}" ]
    /\ "      permissions = {" ∉ out.
Proof.
  intros Hauth Henf (enforce & entries & Hb & ->)%build_nats_authz_Ok.
  pose proof (build_users_enforce _ _ _ _ _ Hauth Hb) as ->.
  rewrite Henf in Hb. simpl in Hb.
  exists entries, (document_lines entries).
  split; [done|]. split; [done|].
  assert (document_lines entries =
       [ "authorization {"; "  users = [" ]
       ++ ('(idx, e) ← enumerate entries;
           [ "    {";
             "      user = " +:+ q (user e);
             "      password = " +:+ q (password e);
             "    }" +:+ separator (length entries) idx ])
       ++ [ "  ]"; "}" ]) as ->.
  { unfold document_lines. do 2 f_equal. apply Forall_bind_ext.
    apply build_users_auth_only, Forall_enumerate in Hb.
    eapply Forall_impl; [exact Hb|]. intros [idx e]. simpl.
    unfold entry_lines. by intros ->. }
  split; [done|].
  rewrite !elem_of_app, list_elem_of_bind.
  intros [H | [([idx e] & H & _) | H]].
  - by repeat (apply elem_of_cons in H as [H|H]; [discriminate H|]);
      apply elem_of_nil in H.
  - by repeat (apply elem_of_cons in H as [H|H]; [discriminate H|]);
      apply elem_of_nil in H.
  - by repeat (apply elem_of_cons in H as [H|H]; [discriminate H|]);
      apply elem_of_nil in H.
Qed.

Lemma auth_only_has_no_permissions_witness :
  exists text entries out,
    build_nats_authz elements (sample_cfg false) = Ok text
    /\ build_users elements (sample_cfg false) = Ok (false, entries)
    /\ text = unlines out
    /\ out =
       [ "authorization {"; "  users = [" ]
       ++ ('(idx, e) ← enumerate entries;
           [ "    {";
             "      user = " +:+ q (user e);
             "      password = " +:+ q (password e);
             "    }" +:+ separator (length entries) idx ])
       ++ [ "  ]"; "}" ]
    /\ "      permissions = {" ∉ out.
Proof.
  eexists.
  destruct (auth_only_has_no_permissions elements (sample_cfg false)
              (sample_auth false)
              (default EmptyString
                 (match build_nats_authz elements (sample_cfg false) with
                  | Ok text => Some text | Raise _ => None end)))
    as (entries & out & H).
  - reflexivity.
  - reflexivity.
  - vm_compute. reflexivity.
  - exists entries, out. split; [|exact H]. vm_compute. reflexivity.
Defined.

(** C8. In both modes, the password of every non-admin entry is the
    configured prefix ([auth.passwordPrefix], [pwd_] when the key is
    absent) followed by the entry's user name. *)
Theorem password_is_prefixed_username iter cfg auth text :
  cfg_auth cfg = Some auth ->
  build_nats_authz iter cfg = Ok text ->
  exists admin_entry principals entries,
    text = unlines (document_lines (admin_entry :: entries))
    /\ expand_role_users cfg = Ok principals
    /\ Forall2 (fun pr e =>
         user e = username pr
         /\ password e = default "pwd_" (passwordPrefix auth) +:+ user e)
         principals entries.
Proof.
  intros Hauth (enforce & ents & Hb & ->)%build_nats_authz_Ok.
  apply build_users_Ok in Hb
    as (auth' & a & u & p & principals & Hauth' & _ & _ & _ & _ & _
        & _ & Hexp & ->).
  assert (auth' = auth) as -> by congruence.
  eexists _, principals, _. split; [reflexivity|]. split; [done|].
  by apply Forall2_fmap_r, Forall_Forall2_diag, Forall_true.
Qed.

Lemma password_is_prefixed_username_witness :
  exists text admin_entry principals entries,
    build_nats_authz elements (sample_cfg false) = Ok text
    /\ text = unlines (document_lines (admin_entry :: entries))
    /\ expand_role_users (sample_cfg false) = Ok principals
    /\ Forall2 (fun pr e =>
         user e = username pr
         /\ password e = "pwd_" +:+ user e)
         principals entries.
Proof.
  eexists.
  destruct (password_is_prefixed_username elements (sample_cfg false)
              (sample_auth false)
              (default EmptyString
                 (match build_nats_authz elements (sample_cfg false) with
                  | Ok text => Some text | Raise _ => None end)))
    as (admin_entry & principals & entries & H).
  - reflexivity.
  - vm_compute. reflexivity.
  - exists admin_entry, principals, entries. split; [|exact H].
    vm_compute. reflexivity.
Defined.




(** ** Template resolution *)

Lemma string_app_cons c (s1 s2 : string) :
  String c s1 +:+ s2 = String c (s1 +:+ s2).
Proof. reflexivity. Qed.

Lemma string_app_nil_l (s : string) : EmptyString +:+ s = s.
Proof. reflexivity. Qed.


Lemma string_app_assoc (s1 s2 s3 : string) :
  (s1 +:+ s2) +:+ s3 = s1 +:+ (s2 +:+ s3).
Proof.
  induction s1 as [|c s1 IH]; [done|]. by rewrite !string_app_cons, IH.
Qed.

Section format_scan_equations.
Variable kw : kwargs.

Lemma scan_escaped_lbrace s :
  format_scan kw None (String lbrace (String lbrace s))
  = (r ← format_scan kw None s; Ok (String lbrace r)).
Proof. reflexivity. Qed.

Lemma scan_open_field c s :
  c <> lbrace ->
  format_scan kw None (String lbrace (String c s))
  = format_scan kw (Some EmptyString) (String c s).
Proof.
  intros Hc. change (format_scan kw None (String lbrace (String c s)))
    with (if bool_decide (c = lbrace)
          then r ← format_scan kw None s; Ok (String lbrace r)
          else format_scan kw (Some EmptyString) (String c s)).
  by rewrite bool_decide_eq_false_2.
Qed.

Lemma scan_escaped_rbrace s :
  format_scan kw None (String rbrace (String rbrace s))
  = (r ← format_scan kw None s; Ok (String rbrace r)).
Proof. reflexivity. Qed.

Lemma scan_literal c s :
  c <> lbrace -> c <> rbrace ->
  format_scan kw None (String c s)
  = (r ← format_scan kw None s; Ok (String c r)).
Proof.
  intros Hl Hr. simpl.
  by rewrite (bool_decide_eq_false_2 _ Hl), (bool_decide_eq_false_2 _ Hr).
Qed.

Lemma scan_close_field name s :
  format_scan kw (Some name) (String rbrace s)
  = (v ← get_field kw name; r ← format_scan kw None s; Ok (v +:+ r)).
Proof. reflexivity. Qed.

Lemma scan_name_char name c s :
  is_name_char c = true ->
  format_scan kw (Some name) (String c s)
  = format_scan kw (Some (name +:+ String c EmptyString)) s.
Proof.
  unfold is_name_char. rewrite negb_true_iff, !orb_false_iff.
  intros [[Hl Hr] Hop]. simpl. by rewrite Hl, Hr, Hop.
Qed.

Lemma scan_single_rbrace c s out :
  c <> rbrace ->
  format_scan kw None (String rbrace (String c s)) <> Ok out.
Proof.
  intros Hc. change (format_scan kw None (String rbrace (String c s)))
    with (if bool_decide (c = rbrace)
          then r ← format_scan kw None s; Ok (String rbrace r)
          else Raise (ValueError
                 "Single '}' encountered in format string")).
  by rewrite bool_decide_eq_false_2.
Qed.

Lemma scan_not_name_char name c s out :
  c <> rbrace -> is_name_char c = false ->
  format_scan kw (Some name) (String c s) <> Ok out.
Proof.
  unfold is_name_char. rewrite negb_false_iff. intros Hr Hc. simpl.
  rewrite (bool_decide_eq_false_2 _ Hr) in *. simpl in Hc.
  destruct (bool_decide (c = lbrace)); [done|]. simpl in Hc.
  by rewrite Hc.
Qed.

(** A prefix that formats on its own formats the same way in front
    of any text: the scanner is back in literal mode at its end. *)
Lemma format_scan_app pre fld out rest :
  format_scan kw fld pre = Ok out ->
  format_scan kw fld (pre +:+ rest)
  = (r ← format_scan kw None rest; Ok (out +:+ r)).
Proof.
  remember (String.length pre) as n eqn:Hn.
  assert (String.length pre <= n)%nat as Hlen by lia. clear Hn.
  revert pre Hlen fld out.
  induction n as [|n IH]; intros pre Hlen fld out H.
  all: destruct pre as [|c pre]; [|simpl in Hlen; try lia].
  1,2: destruct fld; [discriminate|]; injection H as <-;
       by rewrite string_app_nil_l, bind_ret_r.
  rewrite string_app_cons. destruct fld as [name|].
  - destruct (decide (c = rbrace)) as [->|Hr].
    + rewrite scan_close_field in H |- *.
      destruct (get_field kw name) as [v|]; [|done].
      rewrite bind_Ok_l in H |- *.
      destruct (format_scan kw None pre) as [r0|] eqn:E; [|done].
      injection H as <-. rewrite (IH pre) with (out := r0) by (done || lia).
      destruct (format_scan kw None rest); simpl; [|done].
      by rewrite string_app_assoc.
    + destruct (is_name_char c) eqn:Hc.
      * rewrite scan_name_char in H |- * by done. apply IH; [lia|done].
      * by apply scan_not_name_char in H.
  - destruct (decide (c = lbrace)) as [->|Hl].
    { destruct pre as [|c' pre]; [done|]. simpl in Hlen.
      rewrite string_app_cons. destruct (decide (c' = lbrace)) as [->|Hl'].
      - rewrite scan_escaped_lbrace in H |- *.
        destruct (format_scan kw None pre) as [r0|] eqn:E; [|done].
        injection H as <-. rewrite (IH pre) with (out := r0) by (done || lia).
        by destruct (format_scan kw None rest).
      - rewrite scan_open_field in H |- * by done.
        rewrite <- string_app_cons. apply IH; [simpl; lia | done]. }
    destruct (decide (c = rbrace)) as [->|Hr].
    { destruct pre as [|c' pre]; [done|]. simpl in Hlen.
      rewrite string_app_cons. destruct (decide (c' = rbrace)) as [->|Hr'].
      - rewrite scan_escaped_rbrace in H |- *.
        destruct (format_scan kw None pre) as [r0|] eqn:E; [|done].
        injection H as <-. rewrite (IH pre) with (out := r0) by (done || lia).
        by destruct (format_scan kw None rest).
      - by apply scan_single_rbrace in H. }
    rewrite scan_literal in H |- * by done.
    destruct (format_scan kw None pre) as [r0|] eqn:E; [|done].
    injection H as <-. rewrite (IH pre) with (out := r0) by (done || lia).
    by destruct (format_scan kw None rest).
Qed.



End format_scan_equations.

Lemma mapM_result_Raise {A B} (f : A -> result B) l e :
  mapM f l = Raise e -> exists x, x ∈ l /\ f x = Raise e.
Proof.
  induction l as [|x l IH]; simpl; [done|].
  destruct (f x) as [y|e'] eqn:Hx; simpl.
  - destruct (mapM f l) as [k|e'']; simpl; [done|].
    intros [= ->]. destruct IH as (x' & ? & ?); [done|].
    exists x'. split; [by right | done].
  - intros [= ->]. exists x. split; [by left | done].
Qed.



Lemma instantiate_Raise role_name tpl kw_user kw_subject z sz leaf e :
  instantiate role_name tpl kw_user kw_subject z sz leaf = Raise e ->
  format_tokens (userTemplate tpl) kw_user = Raise e
  \/ exists pattern, pattern ∈ tpl_publish tpl ++ tpl_subscribe tpl
       /\ format_tokens pattern kw_subject = Raise e.
Proof.
  unfold instantiate.
  destruct (format_tokens (userTemplate tpl) kw_user); simpl;
    [|intros [= ->]; by left].
  destruct (mapM _ (tpl_publish tpl)) eqn:Hpub; simpl.
  - destruct (mapM _ (tpl_subscribe tpl)) eqn:Hsub; simpl; [done|].
    intros [= ->]. apply mapM_result_Raise in Hsub as (x & ? & ?).
    right. exists x. rewrite elem_of_app. eauto.
  - intros [= ->]. apply mapM_result_Raise in Hpub as (x & ? & ?).
    right. exists x. rewrite elem_of_app. eauto.
Qed.

Lemma principal_at_instantiate cfg s :
  principal_at cfg s
  = let t := cfg_topology cfg in
    let '(role_name, z, sz, leaf) := site_position t s in
    instantiate role_name (site_template (cfg_roles cfg) s)
      (user_keywords t s) (subject_keywords t s) z sz leaf.
Proof. by destruct s. Qed.


Lemma principal_at_Raise_calls cfg s e :
  principal_at cfg s = Raise e ->
  exists call, call ∈ format_calls cfg s
    /\ format_tokens call.1 call.2 = Raise e.
Proof.
  rewrite principal_at_instantiate. simpl.
  destruct (site_position _ s) as [[[role_name z] sz] leaf].
  intros [H | (pattern & Hin & H)]%instantiate_Raise; unfold format_calls.
  - eexists (_, _). split; [by left | done].
  - exists (pattern, subject_keywords (cfg_topology cfg) s).
    split; [|done]. right. apply list_elem_of_fmap. eauto.
Qed.


(** The expansion has no failure path other than a pattern that does
    not resolve: the exception it raises is the one raised by
    formatting one of the instantiated patterns. *)
Lemma expand_role_users_Raise_calls cfg e :
  expand_role_users cfg = Raise e ->
  exists s call, s ∈ sites (cfg_topology cfg) /\ call ∈ format_calls cfg s
    /\ format_tokens call.1 call.2 = Raise e.
Proof.
  rewrite expand_role_users_sites.
  intros (s & Hs & (call & ? & ?)%principal_at_Raise_calls)%mapM_result_Raise.
  eauto.
Qed.

(** The expansion returns a list as soon as every instantiated pattern
    resolves in its context. *)
Lemma expand_role_users_total cfg :
  (forall s call,
     s ∈ sites (cfg_topology cfg) -> call ∈ format_calls cfg s ->
     is_Ok (format_tokens call.1 call.2)) ->
  is_Ok (expand_role_users cfg).
Proof.
  intros Hall. destruct (expand_role_users cfg) as [users|e] eqn:Hexp.
  - by exists users.
  - apply expand_role_users_Raise_calls in Hexp as (s & call & Hs & Hc & He).
    destruct (Hall s call Hs Hc) as [r Hr]. congruence.
Qed.




(** ** Quoting *)

Lemma q_unfold val :
  q val
  = String dquote (replace dquote escaped_dquote val
                   +:+ String dquote EmptyString).
Proof. reflexivity. Qed.

Lemma replace_quotes_follow_backslash val b :
  quotes_follow_backslash b (replace dquote escaped_dquote val) = true.
Proof.
  revert b. induction val as [|c val IH]; intros b; [done|]. simpl.
  destruct (bool_decide_reflect (c = dquote)) as [->|Hc].
  - unfold escaped_dquote. rewrite !string_app_cons, string_app_nil_l.
    simpl. rewrite IH. by destruct b.
  - simpl. rewrite IH. by rewrite (bool_decide_eq_false_2 _ Hc).
Qed.

Lemma read_body_replace escape val :
  no_backslash val = true ->
  read_body escape (replace dquote escaped_dquote val
                    +:+ String dquote EmptyString) = Some val.
Proof.
  unfold no_backslash. induction val as [|c val IH]; [done|]. simpl.
  intros [Hc Hval]%andb_true_iff.
  apply negb_true_iff, bool_decide_eq_false in Hc.
  destruct (bool_decide_reflect (c = dquote)) as [->|Hq].
  - unfold escaped_dquote in *.
    rewrite !string_app_cons, string_app_nil_l. simpl. by rewrite IH.
  - rewrite string_app_cons. simpl.
    rewrite (bool_decide_eq_false_2 _ Hq), (bool_decide_eq_false_2 _ Hc).
    by rewrite IH.
Qed.

(** C7 (as the program has it). Every value is emitted between double
    quotes with a backslash put before each of its double quotes; and
    for every value that holds no backslash, reading the emitted
    literal back gives the value, whatever the grammar makes of the
    other escapes. *)
Theorem q_reads_back escape val :
  (exists body,
     q val = String dquote (body +:+ String dquote EmptyString)
     /\ quotes_follow_backslash false body = true)
  /\ (no_backslash val = true -> read_literal escape (q val) = Some val).
Proof.
  split.
  - exists (replace dquote escaped_dquote val).
    split; [apply q_unfold | apply replace_quotes_follow_backslash].
  - intros Hval. rewrite q_unfold. simpl. by apply read_body_replace.
Qed.

Lemma q_reads_back_witness :
  (exists body,
     q sample_quoted = String dquote (body +:+ String dquote EmptyString)
     /\ quotes_follow_backslash false body = true)
  /\ read_literal (fun _ => None) (q sample_quoted) = Some sample_quoted.
Proof.
  destruct (q_reads_back (fun _ => None) sample_quoted) as [Hq Hread].
  split; [exact Hq | apply Hread; reflexivity].
Defined.

(** C7 as stated fails: a value that ends in a backslash is emitted
    as a literal whose closing quote reads as an escaped quote, so the
    literal does not end; no table of escapes reads it back. *)
Lemma trailing_backslash_not_read_back :
  q (String backslash EmptyString)
  = String dquote (String backslash (String dquote EmptyString))
  /\ (fun escape => read_literal escape (q (String backslash EmptyString)))
     = (fun _ => None).
Proof. split; reflexivity. Qed.

(** * Further properties *)

(** ** [format_tokens] on resolvable templates *)

Lemma format_scan_literal kw t :
  no_braces t = true -> format_scan kw None t = Ok t.
Proof.
  unfold no_braces. induction t as [|c t IH]; [done|].
  intros H. simpl in H. apply andb_true_iff in H as [Hc Ht].
  apply negb_true_iff, orb_false_iff in Hc as [Hl Hr].
  apply bool_decide_eq_false in Hl, Hr.
  rewrite scan_literal, IH by done. done.
Qed.

(** X1. A template without braces is returned unchanged, whatever the
    keyword arguments are. *)
Theorem format_tokens_literal kw template :
  no_braces template = true ->
  format_tokens template kw = Ok template.
Proof. apply format_scan_literal. Qed.

Lemma format_tokens_literal_witness :
  format_tokens "_INBOX.>" (keywords [("centralId", "C1")]) = Ok "_INBOX.>".
Proof. apply format_tokens_literal. reflexivity. Defined.





(** X3. Doubled braces are the way to get a literal brace: text between
    a doubled opening and a doubled closing brace is copied with single
    braces and is never looked up, so it resolves under any keyword
    arguments. *)
Theorem format_tokens_escaped_braces kw pre body post out :
  format_tokens pre kw = Ok out ->
  no_braces body = true ->
  format_tokens
    (pre +:+ String lbrace (String lbrace body)
         +:+ String rbrace (String rbrace post)) kw
  = (r ← format_tokens post kw;
     Ok (out +:+ String lbrace body +:+ String rbrace r)).
Proof.
  unfold format_tokens. intros Hpre Hbody.
  rewrite (format_scan_app kw pre None out) by done.
  rewrite !string_app_cons, scan_escaped_lbrace.
  rewrite (format_scan_app kw body None body)
    by by apply format_scan_literal.
  rewrite scan_escaped_rbrace.
  destruct (format_scan kw None post) as [r|]; [|done].
  by rewrite !bind_Ok_l, !string_app_cons.
Qed.

Lemma format_tokens_escaped_braces_witness :
  format_tokens
    ("a." +:+ String lbrace (String lbrace "zone")
          +:+ String rbrace (String rbrace ".b")) ∅
  = (r ← format_tokens ".b" ∅;
     Ok ("a." +:+ String lbrace "zone" +:+ String rbrace r)).
Proof. apply format_tokens_escaped_braces; reflexivity. Defined.

Lemma get_field_weaken (kw kw' : kwargs) name v :
  kw ⊆ kw' -> get_field kw name = Ok v -> get_field kw' name = Ok v.
Proof.
  intros Hsub. unfold get_field. destruct name as [|c name]; [done|].
  destruct (get_integer 0 (String c name)) as [[?|?]|]; [done..|].
  destruct (kw !! String c name) as [w|] eqn:Hw; [|done].
  intros [= ->]. by rewrite (lookup_weaken _ _ _ _ Hw Hsub).
Qed.

Lemma format_scan_weaken (kw kw' : kwargs) s fld out :
  kw ⊆ kw' ->
  format_scan kw fld s = Ok out -> format_scan kw' fld s = Ok out.
Proof.
  intros Hsub. remember (String.length s) as n eqn:Hn.
  assert (String.length s <= n)%nat as Hlen by lia. clear Hn.
  revert s Hlen fld out.
  induction n as [|n IH]; intros s Hlen fld out H.
  all: destruct s as [|c s]; [|simpl in Hlen; try lia].
  1,2: by destruct fld.
  destruct fld as [name|].
  - destruct (decide (c = rbrace)) as [->|Hr].
    + rewrite scan_close_field in H |- *.
      destruct (get_field kw name) as [v|] eqn:Hv; [|done].
      rewrite (get_field_weaken kw kw' name v) by done.
      rewrite bind_Ok_l in H |- *.
      destruct (format_scan kw None s) as [r0|] eqn:E; [|done].
      rewrite (IH s) with (out := r0) by (done || lia). done.
    + destruct (is_name_char c) eqn:Hc.
      * rewrite scan_name_char in H |- * by done. apply IH; [lia|done].
      * by apply scan_not_name_char in H.
  - destruct (decide (c = lbrace)) as [->|Hl].
    { destruct s as [|c' s]; [done|]. simpl in Hlen.
      destruct (decide (c' = lbrace)) as [->|Hl'].
      - rewrite scan_escaped_lbrace in H |- *.
        destruct (format_scan kw None s) as [r0|] eqn:E; [|done].
        rewrite (IH s) with (out := r0) by (done || lia). done.
      - rewrite scan_open_field in H |- * by done.
        apply IH; [simpl; lia | done]. }
    destruct (decide (c = rbrace)) as [->|Hr].
    { destruct s as [|c' s]; [done|]. simpl in Hlen.
      destruct (decide (c' = rbrace)) as [->|Hr'].
      - rewrite scan_escaped_rbrace in H |- *.
        destruct (format_scan kw None s) as [r0|] eqn:E; [|done].
        rewrite (IH s) with (out := r0) by (done || lia). done.
      - by apply scan_single_rbrace in H. }
    rewrite scan_literal in H |- * by done.
    destruct (format_scan kw None s) as [r0|] eqn:E; [|done].
    rewrite (IH s) with (out := r0) by (done || lia). done.
Qed.

(** X4. Keyword arguments that a template does not use do not change
    its result: a template that formats under [kw] formats to the same
    text under every extension of [kw]. *)
Theorem format_tokens_extra_keywords (kw kw' : kwargs) template out :
  kw ⊆ kw' ->
  format_tokens template kw = Ok out ->
  format_tokens template kw' = Ok out.
Proof. apply format_scan_weaken. Qed.

Lemma format_tokens_extra_keywords_witness :
  format_tokens "up.{centralId}.>"
    (keywords [("centralId", "C1"); ("zoneForCentralAttachedLeaves", "hq")])
  = Ok "up.C1.>".
Proof.
  apply (format_tokens_extra_keywords (keywords [("centralId", "C1")])).
  - apply map_subseteq_spec. intros k v.
    unfold keywords. simpl.
    intros [[<- <-]|[_ Hk]]%lookup_insert_Some.
    + vm_compute. reflexivity.
    + by rewrite lookup_empty in Hk.
  - reflexivity.
Defined.

(** ** What the expansion returns and how it fails *)

Lemma instantiate_resolves role_name tpl kw_user kw_subject z sz leaf u :
  instantiate role_name tpl kw_user kw_subject z sz leaf = Ok u ->
  format_tokens (userTemplate tpl) kw_user = Ok (username u)
  /\ Forall2 (fun pattern subject =>
                format_tokens pattern kw_subject = Ok subject)
       (tpl_publish tpl) (publish u)
  /\ Forall2 (fun pattern subject =>
                format_tokens pattern kw_subject = Ok subject)
       (tpl_subscribe tpl) (subscribe u).
Proof.
  unfold instantiate. intros (name & Hname & H)%bind_Ok.
  apply bind_Ok in H as (pub & Hpub%mapM_result_Forall2 & H).
  apply bind_Ok in H as (sub & Hsub%mapM_result_Forall2 & [= <-]).
  done.
Qed.

Lemma principal_at_resolves cfg s u :
  principal_at cfg s = Ok u -> resolves_to cfg s u.
Proof.
  rewrite principal_at_instantiate. simpl.
  destruct (site_position _ s) as [[[role_name z] sz] leaf].
  apply instantiate_resolves.
Qed.

(** X5. Every principal of the expansion carries the formatted
    patterns of its role at its attachment point: the user name is the
    formatted user pattern, and the publish and subscribe subjects are
    the formatted subject patterns, one per pattern, in the order of
    the role's lists. *)
Theorem expand_role_users_resolves cfg users :
  expand_role_users cfg = Ok users ->
  Forall2 (resolves_to cfg) (sites (cfg_topology cfg)) users.
Proof.
  rewrite expand_role_users_sites. intros H%mapM_result_Forall2.
  eapply Forall2_impl; [exact H|]. apply principal_at_resolves.
Qed.

Lemma expand_role_users_resolves_witness :
  exists users,
    expand_role_users (sample_cfg true) = Ok users
    /\ Forall2 (resolves_to (sample_cfg true)) (sites sample_topology) users.
Proof.
  eexists. split; [vm_compute; reflexivity|].
  apply (expand_role_users_resolves (sample_cfg true)).
  vm_compute. reflexivity.
Defined.

Lemma mapM_result_first_Raise {A B} (f : A -> result B) l e :
  mapM f l = Raise e ->
  exists l1 x l2 k1,
    l = l1 ++ x :: l2 /\ mapM f l1 = Ok k1 /\ f x = Raise e.
Proof.
  induction l as [|x l IH]; simpl; [done|].
  destruct (f x) as [y|e'] eqn:Hx; simpl.
  - destruct (mapM f l) as [k|e'']; simpl; [done|].
    intros [= ->]. destruct IH as (l1 & x' & l2 & k1 & -> & Hl1 & Hx'); [done|].
    exists (x :: l1), x', l2, (y :: k1). simpl. by rewrite Hx, Hl1.
  - intros [= ->]. by exists [], x, l, [].
Qed.

(** X6. The first attachment point that fails, in the order of the
    expansion, decides the exception: every point before it was
    instantiated, and the exception raised is that point's. *)
Theorem expand_role_users_first_failure cfg e :
  expand_role_users cfg = Raise e ->
  exists before s after principals,
    sites (cfg_topology cfg) = before ++ s :: after
    /\ mapM (principal_at cfg) before = Ok principals
    /\ principal_at cfg s = Raise e.
Proof. rewrite expand_role_users_sites. apply mapM_result_first_Raise. Qed.

Lemma expand_role_users_first_failure_witness :
  exists before s after principals,
    sites sample_topology = before ++ s :: after
    /\ mapM (principal_at (cfg_with_zone_user "relay.{subzone}")) before
       = Ok principals
    /\ principal_at (cfg_with_zone_user "relay.{subzone}") s
       = Raise (KeyError "subzone").
Proof.
  apply (expand_role_users_first_failure
           (cfg_with_zone_user "relay.{subzone}")).
  vm_compute. reflexivity.
Defined.

Lemma mapM_result_ext {A B} (f g : A -> result B) l :
  (forall x, x ∈ l -> f x = g x) -> mapM f l = mapM g l.
Proof.
  induction l as [|x l IH]; intros H; simpl; [done|].
  rewrite (H x) by by left. destruct (g x); simpl; [|done].
  rewrite IH; [done|]. intros x' ?. apply H. by right.
Qed.

(** X7. Roles are validated only where they are instantiated: with an
    empty list of zones, the patterns of the four zone-bound roles are
    never formatted, so two documents that agree on the topology and on
    the central relay and central leaf roles expand alike, whatever
    the other roles hold. *)
Theorem expand_role_users_without_zones cfg cfg' :
  cfg_topology cfg = cfg_topology cfg' ->
  zones (cfg_topology cfg) = [] ->
  relayCentral (cfg_roles cfg) = relayCentral (cfg_roles cfg') ->
  leafCentral (cfg_roles cfg) = leafCentral (cfg_roles cfg') ->
  expand_role_users cfg = expand_role_users cfg'.
Proof.
  intros Ht Hz Hrc Hlc. rewrite !expand_role_users_sites, <- Ht.
  apply mapM_result_ext. intros s. unfold sites. rewrite Hz. simpl.
  intros [->|Hs]%elem_of_cons.
  - unfold principal_at, central_relay. by rewrite Hrc, Ht.
  - rewrite app_nil_r in Hs.
    apply list_elem_of_bind in Hs as (leaf & Hs & _).
    apply list_elem_of_singleton in Hs as ->.
    unfold principal_at, central_leaf. by rewrite Hlc, Ht.
Qed.

Lemma expand_role_users_without_zones_witness :
  expand_role_users (cfg_without_zones "{")
  = expand_role_users (cfg_without_zones "relay.{zone}").
Proof.
  apply expand_role_users_without_zones; reflexivity.
Defined.

(** X8. User names are not checked for uniqueness: when the zone
    relay's user pattern has no placeholder and there are at least two
    zones, the expansion succeeds with a list in which a user name
    occurs twice. *)
Theorem expand_role_users_duplicate_usernames cfg users :
  no_braces (userTemplate (relayZone (cfg_roles cfg))) = true ->
  (2 <= length (zones (cfg_topology cfg)))%nat ->
  expand_role_users cfg = Ok users ->
  ~ NoDup (username <$> users).
Proof.
  intros Hlit Hlen. rewrite expand_role_users_sites.
  intros H%mapM_result_Forall2.
  apply (Forall2_impl _ (resolves_to cfg)) in H;
    [|apply principal_at_resolves].
  unfold sites in H.
  destruct (zones (cfg_topology cfg)) as [|z1 [|z2 zs]];
    [simpl in Hlen; lia..|].
  simpl in H.
  inversion H as [|? u0 ? ? _ H1]; subst.
  inversion H1 as [|? u1 ? ? (Hu1 & _) H2]; subst.
  inversion H2 as [|? u2 ? ? (Hu2 & _) _]; subst.
  simpl in Hu1, Hu2.
  unfold format_tokens in Hu1, Hu2.
  rewrite (format_scan_literal _ _ Hlit) in Hu1.
  rewrite (format_scan_literal _ _ Hlit) in Hu2.
  injection Hu1 as Hu1. injection Hu2 as Hu2.
  rewrite !fmap_cons, <- Hu1, <- Hu2.
  intros Hnd. apply NoDup_cons in Hnd as [_ Hnd].
  apply NoDup_cons in Hnd as [Hnot _]. apply Hnot. by left.
Qed.

Lemma expand_role_users_duplicate_usernames_witness :
  exists users,
    expand_role_users (cfg_with_zone_user "relay") = Ok users
    /\ ~ NoDup (username <$> users).
Proof.
  eexists. split; [vm_compute; reflexivity|].
  apply (expand_role_users_duplicate_usernames (cfg_with_zone_user "relay")).
  - reflexivity.
  - simpl. lia.
  - vm_compute. reflexivity.
Defined.

(** ** When the block is produced *)

Lemma admin_credentials_inv cfg u p :
  admin_credentials cfg u p ->
  exists auth a,
    cfg_auth cfg = Some auth /\ admin auth = Some a
    /\ admin_username a = Some u /\ admin_password a = Some p.
Proof.
  unfold admin_credentials, admin_field. intros (Hu & _ & Hp & _).
  destruct (cfg_auth cfg) as [auth|]; [|done]. simpl in *.
  destruct (admin auth) as [a|] eqn:Ha; [|done]. simpl in *.
  exists auth, a. repeat split; done.
Qed.

(** What [build_users] computes once the admin check has passed. *)
Lemma build_users_checked iter cfg auth a u p :
  cfg_auth cfg = Some auth -> admin auth = Some a ->
  admin_username a = Some u -> u <> EmptyString ->
  admin_password a = Some p -> p <> EmptyString ->
  build_users iter cfg
  = (principals ← expand_role_users cfg;
     let enforce := default true (enforcePermissions auth) in
     Ok (enforce,
         admin_entry enforce a u p
         :: (principal_entry iter enforce auth <$> principals))).
Proof.
  intros Hauth Ha Hu Hune Hp Hpne. unfold build_users.
  rewrite Hauth. simpl. rewrite Ha. simpl. rewrite Hu, Hp. simpl.
  rewrite !bool_decide_eq_false_2 by done. simpl.
  destruct (default true (enforcePermissions auth));
    destruct (expand_role_users cfg) as [principals|]; simpl; try done;
    rewrite for_append_pure; simpl; do 3 f_equal.
  unfold principal_entry, js_publish, js_subscribe, password_prefix.
  by destruct (jsClientInternal auth).
Qed.

Lemma principal_entry_permissions iter enforce auth principals :
  Forall (permissions_match enforce)
    (principal_entry iter enforce auth <$> principals).
Proof.
  apply Forall_fmap, Forall_true. intros pr. by destruct enforce; simpl; eauto.
Qed.

(** X9. [build_nats_authz] returns a text exactly when the admin
    credentials are present and not empty and the expansion succeeds:
    rendering itself cannot fail. *)
Theorem build_nats_authz_succeeds_iff iter cfg :
  is_Ok (build_nats_authz iter cfg)
  <-> (exists u p, admin_credentials cfg u p)
      /\ is_Ok (expand_role_users cfg).
Proof.
  split.
  - intros [text (enforce & entries & Hb & _)%build_nats_authz_Ok].
    apply build_users_Ok in Hb
      as (auth & a & u & p & principals & Hauth & Ha & Hu & ? & Hp & ?
          & _ & Hexp & _).
    split; [|by exists principals]. exists u, p.
    unfold admin_credentials, admin_field. rewrite Hauth. simpl.
    rewrite Ha. simpl. done.
  - intros [(u & p & Hcred) [principals Hexp]].
    destruct (admin_credentials_inv _ _ _ Hcred)
      as (auth & a & Hauth & Ha & Hu & Hp).
    destruct Hcred as (_ & Hune & _ & Hpne).
    unfold build_nats_authz.
    rewrite (build_users_checked iter cfg auth a u p) by done.
    rewrite Hexp. simpl. rewrite render_lines_document.
    + by eexists.
    + constructor; [|apply principal_entry_permissions].
      by destruct (default true (enforcePermissions auth)); simpl; eauto.
Qed.

(** X10. A template that does not resolve stops the whole block: with
    valid admin credentials, the exception of the expansion is the
    exception of [build_nats_authz], in either mode, and the command
    prints nothing. *)
Theorem expansion_error_propagates iter cfg u p e :
  admin_credentials cfg u p ->
  expand_role_users cfg = Raise e ->
  build_nats_authz iter cfg = Raise e
  /\ main_nats_authz iter cfg = (EmptyString, 1).
Proof.
  intros Hcred Hexp.
  destruct (admin_credentials_inv _ _ _ Hcred)
    as (auth & a & Hauth & Ha & Hu & Hp).
  destruct Hcred as (_ & Hune & _ & Hpne).
  assert (build_nats_authz iter cfg = Raise e) as H.
  { unfold build_nats_authz.
    rewrite (build_users_checked iter cfg auth a u p) by done.
    by rewrite Hexp. }
  split; [done|]. unfold main_nats_authz. by rewrite H.
Qed.

Lemma expansion_error_propagates_witness :
  build_nats_authz elements (cfg_with_central_user "hub-{zone}")
  = Raise (KeyError "zone")
  /\ main_nats_authz elements (cfg_with_central_user "hub-{zone}")
     = (EmptyString, 1).
Proof.
  apply (expansion_error_propagates elements _ "root" "s3").
  - by repeat split.
  - vm_compute. reflexivity.
Defined.

(** ** The enforcement flag *)

Lemma expand_role_users_with_enforce flag cfg :
  expand_role_users (with_enforce flag cfg) = expand_role_users cfg.
Proof. reflexivity. Qed.

(** X11. Enforcement is the default: a document whose [auth] block
    has no [enforcePermissions] key is rendered as if the key were
    true. *)
Theorem enforcement_is_the_default iter cfg auth :
  cfg_auth cfg = Some auth ->
  enforcePermissions auth = None ->
  build_nats_authz iter cfg
  = build_nats_authz iter (with_enforce (Some true) cfg).
Proof.
  intros Hauth Hflag. unfold build_nats_authz, build_users, with_enforce.
  rewrite Hauth. simpl. by rewrite Hflag.
Qed.

Lemma enforcement_is_the_default_witness :
  build_nats_authz elements (cfg_with_admin_allow ["b"; "a"; "b"] [">"])
  = build_nats_authz elements
      (with_enforce (Some true) (cfg_with_admin_allow ["b"; "a"; "b"] [">"])).
Proof.
  eapply (enforcement_is_the_default elements
           (cfg_with_admin_allow ["b"; "a"; "b"] [">"])); reflexivity.
Defined.

(** X12. The enforcement flag changes nothing but the permissions:
    if the block is produced with enforcement on, then with
    enforcement off it is produced too, with the same users and
    passwords in the same order and no permissions anywhere. *)
Theorem mode_toggle_keeps_credentials iter cfg entries_on :
  build_users iter (with_enforce (Some true) cfg) = Ok (true, entries_on) ->
  exists entries_off,
    build_users iter (with_enforce (Some false) cfg) = Ok (false, entries_off)
    /\ credentials <$> entries_off = credentials <$> entries_on
    /\ Forall (fun e => permissions e = None) entries_off.
Proof.
  intros (auth & a & u & p & principals & Hauth & Ha & Hu & Hune & Hp & Hpne
          & _ & Hexp & ->)%build_users_Ok.
  unfold with_enforce in Hauth. simpl in Hauth.
  destruct (cfg_auth cfg) as [auth0|] eqn:Hauth0; [|done].
  injection Hauth as <-. simpl in *.
  rewrite (build_users_checked iter (with_enforce (Some false) cfg)
    {| enforcePermissions := Some false;
       passwordPrefix := passwordPrefix auth0;
       admin := admin auth0;
       jsClientInternal := jsClientInternal auth0 |} a u p); try done.
  - rewrite expand_role_users_with_enforce in Hexp |- *. rewrite Hexp.
    eexists. split; [reflexivity|]. simpl. split.
    + f_equal. rewrite <- !list_fmap_compose. by apply list_fmap_ext.
    + constructor; [done|]. by apply Forall_fmap, Forall_true.
  - unfold with_enforce. by rewrite Hauth0.
Qed.

Lemma mode_toggle_keeps_credentials_witness :
  exists entries_on entries_off,
    build_users elements (with_enforce (Some true) (sample_cfg false))
    = Ok (true, entries_on)
    /\ build_users elements (with_enforce (Some false) (sample_cfg false))
       = Ok (false, entries_off)
    /\ credentials <$> entries_off = credentials <$> entries_on
    /\ Forall (fun e => permissions e = None) entries_off.
Proof.
  eexists.
  destruct (mode_toggle_keeps_credentials elements (sample_cfg false)
              (default []
                 (match build_users elements
                          (with_enforce (Some true) (sample_cfg false)) with
                  | Ok (_, entries) => Some entries | Raise _ => None end)))
    as (entries_off & H).
  - vm_compute. reflexivity.
  - exists entries_off. split; [|exact H]. vm_compute. reflexivity.
Defined.

(** X13. The admin entry comes first and its allow-lists are emitted as
    configured: unlike those of the other principals they are neither
    sorted nor deduplicated nor extended with the internal subjects,
    and each defaults to the full wildcard when its key is absent. *)
Theorem admin_allow_lists_verbatim iter cfg auth a text :
  cfg_auth cfg = Some auth ->
  admin auth = Some a ->
  default true (enforcePermissions auth) = true ->
  build_nats_authz iter cfg = Ok text ->
  exists admin_e entries,
    text = unlines (document_lines (admin_e :: entries))
    /\ Some (user admin_e) = admin_username a
    /\ Some (password admin_e) = admin_password a
    /\ permissions admin_e
       = Some {| publish_allow := default [">"] (admin_publishAllow a);
                 subscribe_allow := default [">"] (admin_subscribeAllow a) |}.
Proof.
  intros Hauth Ha Henf (enforce & ents & Hb & ->)%build_nats_authz_Ok.
  apply build_users_Ok in Hb
    as (auth' & a' & u & p & principals & Hauth' & Ha' & Hu & _ & Hp & _
        & -> & _ & ->).
  assert (auth' = auth) as -> by congruence.
  assert (a' = a) as -> by congruence.
  rewrite Henf. eexists _, _. split; [reflexivity|]. simpl. done.
Qed.

Lemma admin_allow_lists_verbatim_witness :
  exists text admin_e entries,
    build_nats_authz elements (cfg_with_admin_allow ["b"; "a"; "b"] [">"])
    = Ok text
    /\ text = unlines (document_lines (admin_e :: entries))
    /\ Some (user admin_e) = Some "root"
    /\ Some (password admin_e) = Some "s3"
    /\ permissions admin_e
       = Some {| publish_allow := ["b"; "a"; "b"];
                 subscribe_allow := [">"] |}.
Proof.
  eexists.
  destruct (admin_allow_lists_verbatim elements
              (cfg_with_admin_allow ["b"; "a"; "b"] [">"])
              _ _
              (default EmptyString
                 (match build_nats_authz elements
                          (cfg_with_admin_allow ["b"; "a"; "b"] [">"]) with
                  | Ok text => Some text | Raise _ => None end))
              eq_refl eq_refl)
    as (admin_e & entries & H).
  - reflexivity.
  - vm_compute. reflexivity.
  - exists admin_e, entries. split; [|exact H]. vm_compute. reflexivity.
Defined.

(** ** Quoting keeps values apart *)

Lemma string_snoc_inj c (s1 s2 : string) :
  s1 +:+ String c EmptyString = s2 +:+ String c EmptyString -> s1 = s2.
Proof.
  revert s2. induction s1 as [|c1 s1 IH]; intros [|c2 s2];
    rewrite ?string_app_cons, ?string_app_nil_l; try done.
  - intros [= _ H]. by destruct s2.
  - intros [= _ H]. by destruct s1.
  - intros [= -> H]. f_equal. by apply IH.
Qed.

Lemma escaped_dquote_app (s : string) :
  escaped_dquote +:+ s = String backslash (String dquote s).
Proof. reflexivity. Qed.

Lemma replace_no_leading_quote val rest :
  replace dquote escaped_dquote val <> String dquote rest.
Proof.
  destruct val as [|c val]; [done|]. simpl.
  destruct (bool_decide_reflect (c = dquote)) as [->|Hc]; [done|].
  by intros [= ->].
Qed.

Lemma replace_inj v1 v2 :
  replace dquote escaped_dquote v1 = replace dquote escaped_dquote v2 ->
  v1 = v2.
Proof.
  revert v2. induction v1 as [|c1 v1 IH]; intros [|c2 v2]; simpl.
  - done.
  - by destruct (bool_decide (c2 = dquote)).
  - by destruct (bool_decide (c1 = dquote)).
  - destruct (bool_decide_reflect (c1 = dquote)) as [->|H1];
      destruct (bool_decide_reflect (c2 = dquote)) as [->|H2];
      rewrite ?escaped_dquote_app.
    + intros [= H]. f_equal. by apply IH.
    + intros [= <- H]. symmetry in H.
      by apply replace_no_leading_quote in H.
    + intros [= -> H]. by apply replace_no_leading_quote in H.
    + intros [= -> H]. f_equal. by apply IH.
Qed.

(** X14. [q] never emits the same literal for two different values. *)
Theorem q_injective v1 v2 : v1 <> v2 -> q v1 <> q v2.
Proof.
  intros Hne. rewrite !q_unfold. intros [= H].
  by apply string_snoc_inj, replace_inj in H.
Qed.

Lemma q_injective_witness :
  q (String dquote EmptyString) <> q escaped_dquote.
Proof. apply q_injective. discriminate. Defined.

(** ** Path lookup in the raw document *)

Lemma split_cons sep s : exists part parts, split sep s = part :: parts.
Proof.
  induction s as [|c s (part & parts & IH)]; simpl; [by eexists _, _|].
  destruct (bool_decide (c = sep)); [by eexists _, _|].
  rewrite IH. by eexists _, _.
Qed.

Lemma split_app sep (s1 s2 : string) :
  split sep (s1 +:+ String sep s2) = split sep s1 ++ split sep s2.
Proof.
  induction s1 as [|c s1 IH].
  - rewrite string_app_nil_l. simpl. by rewrite bool_decide_eq_true_2.
  - rewrite string_app_cons. simpl.
    destruct (bool_decide (c = sep)); [by rewrite IH|].
    rewrite IH. by destruct (split_cons sep s1) as (part & parts & ->).
Qed.

Lemma jget_unfold obj path :
  jget obj path = for_ (split "."%char path) (jget_step path) obj.
Proof. unfold jget. by rewrite bind_ret_r. Qed.

Lemma jget_step_member path part cur :
  jget_step path part cur
  = match member cur part with
    | Some v => Ok v
    | None => Raise (path_not_found path part)
    end.
Proof. by destruct cur. Qed.

Lemma for_jget_step_Ok path parts cur v :
  for_ parts (jget_step path) cur = Ok v <-> walk cur parts = Some v.
Proof.
  revert cur. induction parts as [|part parts IH]; intros cur; simpl.
  - split; by intros [= ->].
  - rewrite jget_step_member.
    destruct (member cur part) as [next|]; simpl; [apply IH | done].
Qed.

Lemma for_jget_step_Raise path parts cur e :
  for_ parts (jget_step path) cur = Raise e ->
  exists before part after reached,
    parts = before ++ part :: after
    /\ walk cur before = Some reached
    /\ member reached part = None
    /\ e = path_not_found path part.
Proof.
  revert cur. induction parts as [|part parts IH]; intros cur; simpl; [done|].
  rewrite jget_step_member.
  destruct (member cur part) as [next|] eqn:Hm; simpl.
  - intros (before & part' & after & reached & -> & Hw & ? & ?)%IH.
    exists (part :: before), part', after, reached.
    simpl. rewrite Hm. simpl. done.
  - intros [= <-]. by exists [], part, parts, cur.
Qed.

Lemma walk_app cur parts1 parts2 :
  walk cur (parts1 ++ parts2) = (next ← walk cur parts1; walk next parts2).
Proof.
  revert cur. induction parts1 as [|part parts1 IH]; intros cur; simpl;
    [done|].
  destruct (member cur part); simpl; [apply IH | done].
Qed.

(** X15. Lookups compose along the dots of a path: the value at
    [p1.p2] is the value at [p2] inside the value at [p1]. *)
Theorem jget_compose obj p1 p2 v :
  jget obj (p1 +:+ String "."%char p2) = Ok v
  <-> exists w, jget obj p1 = Ok w /\ jget w p2 = Ok v.
Proof.
  rewrite jget_unfold, for_jget_step_Ok, split_app, walk_app.
  setoid_rewrite jget_unfold. setoid_rewrite for_jget_step_Ok.
  destruct (walk obj (split "."%char p1)) as [w|]; simpl.
  - split; [by exists w | by intros (? & [= <-] & ?)].
  - split; [done | by intros (? & ? & ?)].
Qed.

(** X16. A lookup that fails names the path and the first segment it
    could not follow: every segment before it was followed, and the
    value reached is not an object or has no member of that name. *)
Theorem jget_error_report obj path e :
  jget obj path = Raise e ->
  exists before part after reached,
    split "."%char path = before ++ part :: after
    /\ walk obj before = Some reached
    /\ member reached part = None
    /\ e = path_not_found path part.
Proof. rewrite jget_unfold. apply for_jget_step_Raise. Qed.

Lemma jget_error_report_witness :
  exists before part after reached,
    split "."%char "topology.zones.0" = before ++ part :: after
    /\ walk sample_json before = Some reached
    /\ member reached part = None
    /\ KeyError "Path not found: topology.zones.0 (stuck at 0)"
       = path_not_found "topology.zones.0" part.
Proof.
  apply (jget_error_report sample_json "topology.zones.0").
  vm_compute. reflexivity.
Defined.

(** X17. A path cannot go through an array or a scalar: when the value
    at [p1] is not an object, looking up [p1.p2] fails at the first
    segment of [p2], even when that segment is an index. *)
Theorem jget_through_non_object obj p1 p2 w :
  jget obj p1 = Ok w ->
  is_object w = false ->
  jget obj (p1 +:+ String "."%char p2)
  = Raise (path_not_found (p1 +:+ String "."%char p2)
             (default EmptyString (head (split "."%char p2)))).
Proof.
  rewrite !jget_unfold, split_app. intros Hw%for_jget_step_Ok Hobj.
  destruct (split_cons "."%char p2) as (part & parts & ->). simpl.
  generalize (p1 +:+ String "."%char p2). intros path.
  revert Hw. generalize (split "."%char p1). intros parts1. revert obj.
  induction parts1 as [|part1 parts1 IH]; intros obj; simpl.
  - intros [= ->]. rewrite jget_step_member.
    by destruct w.
  - rewrite jget_step_member.
    destruct (member obj part1) as [next|]; simpl; [apply IH | done].
Qed.

Lemma jget_through_non_object_witness :
  jget sample_json ("topology.zones" +:+ String "."%char "0")
  = Raise (path_not_found ("topology.zones" +:+ String "."%char "0")
             (default EmptyString (head (split "."%char "0")))).
Proof.
  apply (jget_through_non_object sample_json "topology.zones" "0"
           (JArray [JString "z1"; JString "z2"])); reflexivity.
Defined.

(** X18. The empty path does not name the document: it has one
    segment, the empty name, and is looked up as a member. *)
Theorem jget_empty_path obj :
  jget obj EmptyString
  = match member obj EmptyString with
    | Some v => Ok v
    | None => Raise (path_not_found EmptyString EmptyString)
    end.
Proof.
  rewrite jget_unfold. simpl. rewrite jget_step_member.
  by destruct (member obj EmptyString).
Qed.

(** ** Allow-lists as sets *)

(** X19. An allow-list depends only on which subjects it is built
    from: listing a subject twice or in another order, in the role or
    among the internal subjects, changes nothing. *)
Theorem sorted_set_same_subjects iter l1 l2 :
  set_iteration iter ->
  (forall x, x ∈ l1 <-> x ∈ l2) ->
  sorted_set iter l1 = sorted_set iter l2.
Proof.
  intros Hiter Hsame. apply (Sorted_unique String.le).
  - by apply sorted_set_Sorted.
  - by apply sorted_set_Sorted.
  - apply NoDup_Permutation.
    + by apply sorted_set_NoDup.
    + by apply sorted_set_NoDup.
    + intros x. by rewrite !elem_of_sorted_set.
Qed.

Lemma sorted_set_same_subjects_witness :
  sorted_set elements ["b"; "a"; "b"] = sorted_set elements ["a"; "b"].
Proof.
  apply sorted_set_same_subjects.
  - intros X. reflexivity.
  - intros x. rewrite !elem_of_cons, !elem_of_nil. tauto.
Defined.
